(** * A shallow embedding of cntk/graph.py (CNTK Python bindings)

    The module walks a computation graph through an object model it does
    not define: nodes expose [root_function], [inputs], [outputs], [owner],
    [is_output], [block_root], [block_arguments_mapping], [name], [op_name],
    [uid] and [shape].  Any of these attribute reads may succeed, fail with
    [AttributeError] (the attribute does not exist) or fail with another
    exception raised by the native layer ([RuntimeError], e.g. [block_root]
    on a function that is not a block).  The code distinguishes node kinds by
    catching these exceptions, so the embedding models them explicitly. *)

From Stdlib Require Import List Bool Arith Lia String Ascii Sorted Permutation.
Import ListNotations.
Open Scope string_scope.
Open Scope list_scope.

(** ** Python exceptions and a state monad with exceptions

    Python mutates the traversal's locals in place: an exception raised in
    the middle of a [try] block keeps the mutations done before it.  The
    monad therefore threads the state through both outcomes. *)

Inductive exc : Type :=
| AttributeError
| RuntimeError
| IndexError
| ValueError (msg : string)
| ImportError (msg : string).

Inductive outcome (A : Type) : Type :=
| Ok (a : A)
| Exn (e : exc).
Arguments Ok {A} a.
Arguments Exn {A} e.

Definition M (S A : Type) : Type := S -> outcome A * S.

Definition ret {S A} (a : A) : M S A := fun s => (Ok a, s).
Definition raise {S A} (e : exc) : M S A := fun s => (Exn e, s).
Definition bind {S A B} (m : M S A) (k : A -> M S B) : M S B :=
  fun s => match m s with
           | (Ok a, s') => k a s'
           | (Exn e, s') => (Exn e, s')
           end.
Definition modify {S} (f : S -> S) : M S unit := fun s => (Ok tt, f s).
Definition lift {S A} (o : outcome A) : M S A := fun s => (o, s).

Notation "x <- m ;; k" := (bind m (fun x => k))
  (at level 61, m at next level, right associativity).
Notation "m ;;; k" := (bind m (fun _ => k))
  (at level 61, right associativity).

(** [try: body except <handled>: handler] *)
Definition try_except {S A} (body : M S A) (handled : exc -> bool)
    (handler : M S A) : M S A :=
  fun s => match body s with
           | (Exn e, s') => if handled e then handler s' else (Exn e, s')
           | r => r
           end.

(** the bare [except:] of the block probe catches every exception *)
Definition any_exc (_ : exc) : bool := true.
Definition is_attribute_error (e : exc) : bool :=
  match e with AttributeError => true | _ => false end.

(** ** The external object model *)

(** The result of reading one attribute of a node. *)
Inductive prop (A : Type) : Type :=
| Val (a : A)
| Missing            (* AttributeError *)
| Throws.            (* RuntimeError raised by the native property *)
Arguments Val {A} a.
Arguments Missing {A}.
Arguments Throws {A}.

Definition getattr {S A} (p : prop A) : M S A :=
  match p with
  | Val a => ret a
  | Missing => raise AttributeError
  | Throws => raise RuntimeError
  end.

(** Nodes are Python objects, identified by a natural number; a graph maps
    each object to its attributes. *)
Record attrs : Type := mk_attrs {
  block_root : prop nat;
  block_arguments_mapping : prop (list (nat * nat));
  root_function : prop nat;
  inputs : prop (list nat);
  outputs : prop (list nat);
  is_output : prop bool;
  owner : prop nat;
  name : prop string;
  op_name : prop string;
  uid : prop string;
  shape : prop string   (* [str(x.shape)] *)
}.

Definition graph : Type := nat -> attrs.

(** An object without any of the probed attributes. *)
Definition no_attrs : attrs :=
  mk_attrs Missing Missing Missing Missing Missing Missing Missing
           Missing Missing Missing Missing.

Fixpoint mem (x : nat) (l : list nat) : bool :=
  match l with
  | [] => false
  | y :: t => Nat.eqb x y || mem x t
  end.

(** ** depth_first_search *)

(** The locals of the loop.  [stack] is the Python list with its top (the
    end that [pop()] takes) first: [stack.append(x)] is [x :: stack] and
    [stack.extend(xs)] is [rev xs ++ stack]. *)
Record dfs_state : Type := mk_dfs {
  stack : list (nat * nat * nat);   (* node, distance, block depth *)
  accum : list (nat * nat);         (* node, distance *)
  visited : list nat
}.

Definition set_stack (st : list (nat * nat * nat)) (s : dfs_state) :=
  mk_dfs st (accum s) (visited s).
Definition push (x : nat * nat * nat) (s : dfs_state) :=
  mk_dfs (x :: stack s) (accum s) (visited s).
Definition extend (xs : list (nat * nat * nat)) (s : dfs_state) :=
  mk_dfs (rev xs ++ stack s) (accum s) (visited s).
Definition visit (x : nat) (s : dfs_state) :=
  mk_dfs (stack s) (accum s) (x :: visited s).
Definition visit_all (xs : list nat) (s : dfs_state) :=
  mk_dfs (stack s) (accum s) (xs ++ visited s).
Definition append (a : nat * nat) (s : dfs_state) :=
  mk_dfs (stack s) (accum s ++ [a]) (visited s).

(** [continue] versus falling through to the rest of the loop body *)
Inductive flow : Type := Continue | Next.

Section DFS.

Variable G : graph.
(** a Python predicate: it may raise *)
Variable visitor : nat -> outcome bool.
(** [None] or an integer *)
Variable max_depth : option nat.

Definition depth_ok (depth : nat) : bool :=
  match max_depth with
  | None => true
  | Some m => Nat.ltb depth m
  end.

(** lines 31-44: the BlockFunction branch *)
Definition block_branch (node distance depth : nat) : M dfs_state flow :=
  composite <- getattr (block_root (G node)) ;;
  mapping <- getattr (block_arguments_mapping (G node)) ;;
  modify (extend (map (fun p => (snd p, S distance, depth)) mapping)) ;;;
  modify (visit_all (map fst mapping)) ;;;
  modify (push (composite, S distance, S depth)) ;;;
  modify (visit node) ;;;
  b <- lift (visitor node) ;;
  (if b then modify (append (node, distance)) else ret tt) ;;;
  ret Continue.

(** lines 53-59: the OutputVariable probe *)
Definition output_branch (node distance depth : nat) : M dfs_state flow :=
  try_except
    (o <- getattr (is_output (G node)) ;;
     if o then
       ow <- getattr (owner (G node)) ;;
       modify (push (ow, S distance, depth)) ;;;
       modify (visit node) ;;;
       ret Continue
     else ret Next)
    is_attribute_error
    (ret Next).

(** lines 48-59: the Function node branch *)
Definition function_branch (node distance depth : nat) : M dfs_state flow :=
  try_except
    (r <- getattr (root_function (G node)) ;;
     ins <- getattr (inputs (G r)) ;;
     modify (extend (map (fun i => (i, S distance, depth)) ins)) ;;;
     ret Next)
    is_attribute_error
    (output_branch node distance depth).

(** lines 61-64 *)
Definition visit_tail (node distance : nat) : M dfs_state unit :=
  b <- lift (visitor node) ;;
  (if b then modify (append (node, distance)) else ret tt) ;;;
  modify (visit node).

(** lines 30-64, after [pop()] and the [visited] test *)
Definition dfs_body (node distance depth : nat) : M dfs_state unit :=
  f <- (if depth_ok depth
        then try_except (block_branch node distance depth) any_exc (ret Next)
        else ret Next) ;;
  match f with
  | Continue => ret tt
  | Next =>
      f' <- function_branch node distance depth ;;
      match f' with
      | Continue => ret tt
      | Next => visit_tail node distance
      end
  end.

(** lines 26-64: [while stack], with fuel bounding the iterations
    ([None] when the fuel runs out) *)
Fixpoint dfs_loop (fuel : nat) (s : dfs_state)
    : option (outcome unit * dfs_state) :=
  match fuel with
  | O => None
  | S fuel' =>
      match stack s with
      | [] => Some (Ok tt, s)
      | (node, distance, depth) :: rest =>
          let s1 := set_stack rest s in
          if mem node (visited s1) then dfs_loop fuel' s1
          else match dfs_body node distance depth s1 with
               | (Ok _, s2) => dfs_loop fuel' s2
               | (Exn e, s2) => Some (Exn e, s2)
               end
      end
  end.

End DFS.

(** [accum.sort(key=lambda tpl: tpl[1])]: Python's sort is stable, so its
    result is the stable sort by distance, computed here by insertion. *)
Fixpoint insert_by_distance (a : nat * nat) (l : list (nat * nat)) :=
  match l with
  | [] => [a]
  | b :: t => if Nat.ltb (snd a) (snd b) then a :: b :: t
              else b :: insert_by_distance a t
  end.

Definition sort_by_key (l : list (nat * nat)) : list (nat * nat) :=
  fold_left (fun acc a => insert_by_distance a acc) l [].

Definition dfs_init (root : nat) : dfs_state := mk_dfs [(root, 0, 0)] [] [].

(** lines 7-69 *)
Definition depth_first_search (G : graph) (fuel : nat) (root : nat)
    (visitor : nat -> outcome bool) (max_depth : option nat)
    (sort_by_distance : bool) : option (outcome (list nat)) :=
  match dfs_loop G visitor max_depth fuel (dfs_init root) with
  | None => None
  | Some (Exn e, _) => Some (Exn e)
  | Some (Ok _, s) =>
      let acc := if sort_by_distance then sort_by_key (accum s) else accum s in
      Some (Ok (map fst acc))
  end.

(** ** The name-lookup wrappers (lines 71-147) *)

(** a Python value passed as [node_name]: a [str], or a value of another
    type that compares unequal to every name string ([None], a number, ...).
    [find_by_name] and [try_find_closest_by_name] reject every non-[str]
    value before any comparison. *)
Inductive pyval : Type :=
| PyStr (s : string)
| PyOther.

(** [lambda x: x.name == node_name] *)
Definition name_matches (G : graph) (node_name : pyval) (x : nat)
    : outcome bool :=
  match name (G x) with
  | Val n => Ok (match node_name with
                 | PyStr s => String.eqb n s
                 | PyOther => false
                 end)
  | Missing => Exn AttributeError
  | Throws => Exn RuntimeError
  end.

Definition find_all_with_name (G : graph) (fuel : nat) (node : nat)
    (node_name : pyval) (max_depth : option nat)
    : option (outcome (list nat)) :=
  depth_first_search G fuel node (name_matches G node_name) max_depth false.

Definition not_a_string_msg : string :=
  "node name has to be a string. You gave a ...".
Definition multiple_msg : string :=
  "found multiple functions matching ...".

Definition find_by_name (G : graph) (fuel : nat) (node : nat)
    (node_name : pyval) (max_depth : option nat)
    : option (outcome (option nat)) :=
  match node_name with
  | PyOther => Some (Exn (ValueError not_a_string_msg))
  | PyStr _ =>
      match depth_first_search G fuel node (name_matches G node_name)
              max_depth false with
      | None => None
      | Some (Exn e) => Some (Exn e)
      | Some (Ok result) =>
          if Nat.ltb 1 (List.length result) then Some (Exn (ValueError multiple_msg))
          else match result with
               | [] => Some (Ok None)
               | x :: _ => Some (Ok (Some x))
               end
      end
  end.

Definition try_find_closest_by_name (G : graph) (fuel : nat) (node : nat)
    (node_name : pyval) (max_depth : option nat)
    : option (outcome (option nat)) :=
  match node_name with
  | PyOther => Some (Exn (ValueError not_a_string_msg))
  | PyStr _ =>
      match depth_first_search G fuel node (name_matches G node_name)
              max_depth true with
      | None => None
      | Some (Exn e) => Some (Exn e)
      | Some (Ok []) => Some (Ok None)
      | Some (Ok (x :: _)) => Some (Ok (Some x))
      end
  end.

(** ** output_function_graph (lines 150-260) *)

Definition nl : string := String (ascii_of_nat 10) EmptyString.

(** [str.split("\n")] *)
Fixpoint split_nl (s : string) : list string :=
  match s with
  | EmptyString => [EmptyString]
  | String c rest =>
      if Ascii.eqb c (ascii_of_nat 10) then EmptyString :: split_nl rest
      else match split_nl rest with
           | [] => [String c EmptyString]
           | h :: t => String c h :: t
           end
  end.

(** [sep.join(l)] *)
Fixpoint join (sep : string) (l : list string) : string :=
  match l with
  | [] => EmptyString
  | [x] => x
  | x :: t => (x ++ sep ++ join sep t)%string
  end.

(** the calls made on the pydot_ng objects *)
Inductive dot_event : Type :=
| DotInit                                  (* pydot.Dot(...) and defaults *)
| DotNode (node_name : string)             (* dot_object.add_node *)
| DotEdge (src dst label : string)         (* dot_object.add_edge *)
| WriteSvg (path : string)
| WritePdf (path : string)
| WritePng (path : string)
| WriteRaw (path : string).

Record ofg_state : Type := mk_ofg {
  ostack : list nat;      (* top first, as for [dfs_state] *)
  oaccum : list nat;
  ovisited : list nat;
  onode : nat;            (* the local [node], rebound at line 206 *)
  model : string;
  dot : list dot_event
}.

Definition set_ostack st s :=
  mk_ofg st (oaccum s) (ovisited s) (onode s) (model s) (dot s).
Definition set_onode n s :=
  mk_ofg (ostack s) (oaccum s) (ovisited s) n (model s) (dot s).
Definition opush x s :=
  mk_ofg (x :: ostack s) (oaccum s) (ovisited s) (onode s) (model s) (dot s).
Definition oextend xs s :=
  mk_ofg (rev xs ++ ostack s) (oaccum s) (ovisited s) (onode s) (model s)
    (dot s).
Definition ovisit x s :=
  mk_ofg (ostack s) (oaccum s) (x :: ovisited s) (onode s) (model s) (dot s).
Definition oappend x s :=
  mk_ofg (ostack s) (oaccum s ++ [x]) (ovisited s) (onode s) (model s)
    (dot s).
Definition add_model str s :=
  mk_ofg (ostack s) (oaccum s) (ovisited s) (onode s) ((model s ++ str)%string)
    (dot s).
Definition add_dot ev s :=
  mk_ofg (ostack s) (oaccum s) (ovisited s) (onode s) (model s)
    (dot s ++ [ev]).

Definition get_node : M ofg_state nat := fun s => (Ok (onode s), s).

(** Python truthiness of an optional path *)
Definition truthy (p : option string) : bool :=
  match p with
  | None => false
  | Some s => negb (String.eqb s EmptyString)
  end.

Definition not_none {A} (p : option A) : bool :=
  match p with None => false | Some _ => true end.

Section OFG.

Variable G : graph.
Variable write_to_file : bool.

(** lines 217-227: the loop over [node.inputs] *)
Fixpoint serialize_inputs (cur : string) (children : list nat)
    : M ofg_state unit :=
  match children with
  | [] => ret tt
  | child :: rest =>
      u <- getattr (uid (G child)) ;;
      modify (add_model u) ;;;
      (match rest with
       | [] => ret tt
       | _ :: _ => modify (add_model ", ")
       end) ;;;
      (if write_to_file then
         cu <- getattr (uid (G child)) ;;
         modify (add_dot (DotNode cu)) ;;;
         sh <- getattr (shape (G child)) ;;
         modify (add_dot (DotEdge cu cur sh))
       else ret tt) ;;;
      serialize_inputs cur rest
  end.

(** [node.outputs[0]] *)
Definition first_output (r : nat) : M ofg_state nat :=
  outs <- getattr (outputs (G r)) ;;
  match outs with
  | [] => raise IndexError
  | o :: _ => ret o
  end.

(** lines 209-235: the textual and dot serialization of the function [r]
    with inputs [ins] *)
Definition ofg_serialize (r : nat) (ins : list nat) : M ofg_state unit :=
  opn <- getattr (op_name (G r)) ;;
  modify (add_model ((opn ++ "(")%string)) ;;;
  cur <- (if write_to_file then
            opn' <- getattr (op_name (G r)) ;;
            u <- getattr (uid (G r)) ;;
            let cur := (opn' ++ " " ++ u)%string in
            modify (add_dot (DotNode cur)) ;;;
            ret cur
          else ret EmptyString) ;;
  serialize_inputs cur ins ;;;
  o <- first_output r ;;
  ou <- getattr (uid (G o)) ;;
  modify (add_model ((") -> " ++ ou ++ nl)%string)) ;;;
  (if write_to_file then
     o' <- first_output r ;;
     ou' <- getattr (uid (G o')) ;;
     modify (add_dot (DotNode ou')) ;;;
     sh <- getattr (shape (G o')) ;;
     modify (add_dot (DotEdge cur ou' sh))
   else ret tt).

(** lines 204-235: the Function node branch *)
Definition ofg_function_branch : M ofg_state unit :=
  n <- get_node ;;
  r <- getattr (root_function (G n)) ;;
  modify (set_onode r) ;;;
  ins <- getattr (inputs (G r)) ;;
  modify (oextend ins) ;;;
  ofg_serialize r ins.

(** lines 237-243 *)
Definition ofg_output_branch : M ofg_state unit :=
  n <- get_node ;;
  try_except
    (o <- getattr (is_output (G n)) ;;
     if o then ow <- getattr (owner (G n)) ;; modify (opush ow)
     else ret tt)
    is_attribute_error
    (ret tt).

(** lines 204-248, after [pop()] and the [visited] test; the visitor is
    [lambda x: True] (line 193) *)
Definition ofg_body : M ofg_state unit :=
  try_except ofg_function_branch is_attribute_error ofg_output_branch ;;;
  n <- get_node ;;
  (if (fun _ : nat => true) n then modify (oappend n) else ret tt) ;;;
  modify (ovisit n).

(** lines 198-248 *)
Fixpoint ofg_loop (fuel : nat) (s : ofg_state)
    : option (outcome unit * ofg_state) :=
  match fuel with
  | O => None
  | S fuel' =>
      match ostack s with
      | [] => Some (Ok tt, s)
      | node :: rest =>
          let s1 := set_onode node (set_ostack rest s) in
          if mem node (ovisited s1) then ofg_loop fuel' s1
          else match ofg_body s1 with
               | (Ok _, s2) => ofg_loop fuel' s2
               | (Exn e, s2) => Some (Exn e, s2)
               end
      end
  end.

End OFG.

Definition import_msg : string :=
  "SVG, PDF, PNG, and DOT format requires pydot_ng package. Unable to import pydot_ng.".

(** lines 250-257 *)
Definition write_files (svg pdf png dotp : option string) (s : ofg_state)
    : ofg_state :=
  let s := match svg with Some p => if truthy svg then add_dot (WriteSvg p) s else s | None => s end in
  let s := match pdf with Some p => if truthy pdf then add_dot (WritePdf p) s else s | None => s end in
  let s := match png with Some p => if truthy png then add_dot (WritePng p) s else s | None => s end in
  match dotp with Some p => if truthy dotp then add_dot (WriteRaw p) s else s | None => s end.

(** The whole routine, returning its result together with the final locals
    (the pydot calls are in [dot]).  [pydot_available] says whether
    [import pydot_ng] succeeds in the running interpreter. *)
Definition output_function_graph_run (G : graph) (pydot_available : bool)
    (fuel : nat) (node : nat)
    (dot_file_path png_file_path pdf_file_path svg_file_path : option string)
    : option (outcome string * ofg_state) :=
  let write_to_file :=
    not_none dot_file_path || not_none png_file_path ||
    not_none pdf_file_path || not_none svg_file_path in
  let s0 := mk_ofg [node] [] [] node EmptyString [] in
  if write_to_file && negb pydot_available
  then Some (Exn (ImportError import_msg), s0)
  else
    let s0 := if write_to_file then add_dot DotInit s0 else s0 in
    match ofg_loop G write_to_file fuel s0 with
    | None => None
    | Some (Exn e, s) => Some (Exn e, s)
    | Some (Ok _, s) =>
        let s := write_files svg_file_path pdf_file_path png_file_path
                   dot_file_path s in
        Some (Ok (join nl (rev (split_nl (model s)))), s)
    end.

Definition output_function_graph (G : graph) (pydot_available : bool)
    (fuel : nat) (node : nat)
    (dot_file_path png_file_path pdf_file_path svg_file_path : option string)
    : option (outcome string) :=
  match output_function_graph_run G pydot_available fuel node dot_file_path
          png_file_path pdf_file_path svg_file_path with
  | None => None
  | Some (r, _) => Some r
  end.

(** ** Derived notions used by the statements *)

Section Notions.

Variable G : graph.

(** the block branch applies: both block attributes can be read *)
Definition is_block (x : nat) : bool :=
  match block_root (G x), block_arguments_mapping (G x) with
  | Val _, Val _ => true
  | _, _ => false
  end.

(** [node.root_function.inputs] raises [AttributeError] *)
Definition rf_attribute_error (x : nat) : bool :=
  match root_function (G x) with
  | Missing => true
  | Val r => match inputs (G r) with Missing => true | _ => false end
  | Throws => false
  end.

Definition has_owner (x : nat) : bool :=
  match owner (G x) with Val _ => true | _ => false end.

Definition is_output_true (x : nat) : bool :=
  match is_output (G x) with Val true => true | _ => false end.

(** an output variable as the traversal treats it at a given block depth:
    the block branch does not apply, the function probe fails with
    [AttributeError], [is_output] is true and [owner] can be read *)
Definition output_var_at (max_depth : option nat) (depth : nat) (x : nat)
    : bool :=
  negb (depth_ok max_depth depth && is_block x) && rf_attribute_error x &&
  is_output_true x && has_owner x.

(** an output variable at every depth: no block attributes *)
Definition output_var (x : nat) : bool :=
  negb (is_block x) && rf_attribute_error x && is_output_true x &&
  has_owner x.

(** every object an attribute of [x] refers to *)
Definition refs (x : nat) : list nat :=
  (match block_root (G x) with Val c => [c] | _ => [] end) ++
  (match block_arguments_mapping (G x) with
   | Val m => map fst m ++ map snd m | _ => [] end) ++
  (match root_function (G x) with
   | Val r => r :: match inputs (G r) with Val is => is | _ => [] end
   | _ => [] end) ++
  (match owner (G x) with Val o => [o] | _ => [] end).

(** the formal composite inputs of [x]'s block mapping, when [x] is a block *)
Definition formals_of (x : nat) : list nat :=
  match block_root (G x), block_arguments_mapping (G x) with
  | Val _, Val m => map fst m
  | _, _ => []
  end.

(** the nodes the traversal pushes when it processes [x] with
    [max_depth = None] *)
Definition succ_none (x : nat) : list nat :=
  match block_root (G x), block_arguments_mapping (G x) with
  | Val c, Val m => c :: map snd m
  | _, _ =>
      match root_function (G x) with
      | Val r =>
          match inputs (G r) with
          | Val is => is
          | Missing =>
              if is_output_true x then
                match owner (G x) with Val o => [o] | _ => [] end
              else []
          | Throws => []
          end
      | Missing =>
          if is_output_true x then
            match owner (G x) with Val o => [o] | _ => [] end
          else []
      | Throws => []
      end
  end.

(** a path of [succ_none] edges *)
Inductive reach_none : nat -> nat -> Prop :=
| reach_refl x : reach_none x x
| reach_step x y z : In y (succ_none x) -> reach_none y z -> reach_none x z.


Definition nodes_of (st : list (nat * nat * nat)) : list nat :=
  map (fun p => fst (fst p)) st.

Definition le_dist (a b : nat * nat) : Prop := snd a <= snd b.

Definition unvisited (U vis : list nat) : nat :=
  List.length (filter (fun x => negb (mem x vis)) U).

(** [U] lists the objects of a finite graph: it is closed under the
    references of its objects' attributes. *)
Definition closed (U : list nat) : Prop :=
  forall x, In x U -> incl (refs x) U.

(** [y] is a formal composite input of some block *)
Definition formal (y : nat) : Prop :=
  exists x, In y (formals_of x).

(** a [succ_none] path from [x] to [z] through no formal composite input *)
Inductive clear_path : nat -> nat -> Prop :=
| clear_refl x : ~ formal x -> clear_path x x
| clear_step x y z : ~ formal x -> In y (succ_none x) ->
    clear_path y z -> clear_path x z.

(** every accumulated node satisfies the visitor and is no output variable *)
Definition accum_sound (visitor : nat -> outcome bool) (s : dfs_state) : Prop :=
  forall a, In a (accum s) ->
    visitor (fst a) = Ok true /\ output_var (fst a) = false.

(** no node is accumulated twice, and accumulated nodes are visited *)
Definition accum_unique (s : dfs_state) : Prop :=
  NoDup (map fst (accum s)) /\
  forall a, In a (accum s) -> In (fst a) (visited s).

(** With [max_depth = None]: every visited node is a formal input or has had
    its successors pushed and, if it should be returned, been returned. *)
Definition complete_inv (visitor : nat -> outcome bool) (root : nat)
    (s : dfs_state) : Prop :=
  (In root (visited s) \/ In root (nodes_of (stack s))) /\
  forall x, In x (visited s) ->
    formal x \/
    (incl (succ_none x) (visited s ++ nodes_of (stack s)) /\
     (visitor x = Ok true -> output_var x = false ->
      In x (map fst (accum s)))).

End Notions.

(** A node with its block attributes removed: how the traversal sees a
    block whose expansion is cut off by [max_depth]. *)
Definition without_block (G : graph) (n : nat) : graph :=
  fun x => if Nat.eqb x n
           then let a := G x in
                mk_attrs Missing Missing (root_function a) (inputs a)
                  (outputs a) (is_output a) (owner a) (name a) (op_name a)
                  (uid a) (shape a)
           else G x.

(** Every node with its block attributes removed. *)
Definition without_blocks (G : graph) : graph :=
  fun x => let a := G x in
           mk_attrs Missing Missing (root_function a) (inputs a) (outputs a)
             (is_output a) (owner a) (name a) (op_name a) (uid a) (shape a).

(** [closed] as a boolean check *)
Definition closedb (G : graph) (U : list nat) : bool :=
  forallb (fun x => forallb (fun y => mem y U) (refs G x)) U.

(** ** Sample graphs *)

Definition function_node (rf : nat) (ins outs : list nat) (op u nm : string)
    : attrs :=
  mk_attrs Missing Missing (Val rf) (Val ins) (Val outs) Missing Missing
    (Val nm) (Val op) (Val u) (Val "(1,)").

Definition variable_node (isout : bool) (own : prop nat) (u nm : string)
    : attrs :=
  mk_attrs Missing Missing Missing Missing Missing (Val isout) own
    (Val nm) Missing (Val u) (Val "(1,)").

(** [Plus(Out1) -> Out4] where [Out1] is the output of [Times(Param3)];
    the output variable 1 and the function 2 are both named "h". *)
Definition ex_chain (n : nat) : attrs :=
  match n with
  | 0 => function_node 0 [1] [4] "Plus" "Plus0" "out"
  | 1 => variable_node true (Val 2) "Out1" "h"
  | 2 => function_node 2 [3] [1] "Times" "Times2" "h"
  | 3 => variable_node false Missing "Param3" "W"
  | 4 => variable_node true (Val 0) "Out4" "out"
  | _ => no_attrs
  end.

(** two functions feeding each other *)
Definition ex_cycle (n : nat) : attrs :=
  match n with
  | 0 => function_node 0 [1] [] "A" "A0" "a"
  | 1 => function_node 1 [0] [] "B" "B1" "b"
  | _ => no_attrs
  end.

(** a block 0 whose composite 5 reads the formal input 6, mapped to the
    actual input 1 *)
Definition ex_block (n : nat) : attrs :=
  match n with
  | 0 => mk_attrs (Val 5) (Val [(6, 1)]) (Val 0) (Val [1]) (Val [7])
           Missing Missing (Val "blk") (Val "Block") (Val "B0") (Val "(1,)")
  | 1 => variable_node false Missing "P1" "x"
  | 5 => function_node 8 [6] [7] "Composite" "C5" "inner"
  | 8 => function_node 8 [6] [7] "Tanh" "T8" "inner"
  | 6 => variable_node false Missing "F6" "formal"
  | _ => no_attrs
  end.

(** an object with block attributes that also answers [is_output = True] *)
Definition ex_output_block (n : nat) : attrs :=
  match n with
  | 0 => mk_attrs (Val 1) (Val []) Missing Missing Missing (Val true) (Val 1)
           (Val "x") Missing (Val "X0") Missing
  | 1 => variable_node false Missing "P1" "p"
  | _ => no_attrs
  end.

(** two functions 0 and 1 whose root functions 2 and 3 read 1 and 0 *)
Definition ex_composite_cycle (n : nat) : attrs :=
  match n with
  | 0 => function_node 2 [] [] "Composite" "C0" "c"
  | 1 => function_node 3 [] [] "Composite" "C1" "d"
  | 2 => function_node 2 [1] [4] "Plus" "P2" "p"
  | 3 => function_node 3 [0] [5] "Times" "T3" "q"
  | 4 => variable_node true (Val 2) "O4" "p"
  | 5 => variable_node true (Val 3) "O5" "q"
  | _ => no_attrs
  end.

(** [ex_chain] with a composite model 9 whose [root_function] is the
    primitive function 0 *)
Definition ex_model (n : nat) : attrs :=
  if Nat.eqb n 9 then function_node 0 [] [4] "Composite" "Model9" "model"
  else ex_chain n.

(** ** Notions for output_function_graph *)

(** [m] keeps the property [P] of the state, whatever its outcome *)
Definition stable {S A} (P : S -> Prop) (m : M S A) : Prop :=
  forall s, P s -> P (snd (m s)).

(** the traversal part of the locals: what is not text or dot output *)
Definition core (s : ofg_state) : list nat * list nat * list nat * nat :=
  (ostack s, oaccum s, ovisited s, onode s).

Definition is_write (ev : dot_event) : bool :=
  match ev with
  | WriteSvg _ | WritePdf _ | WritePng _ | WriteRaw _ => true
  | _ => false
  end.

(** the files a caller asks for, read as the documentation words it: one
    write per path that is given; a given path is "specified" when it is a
    non-empty string *)
Definition given_file (p : option string) (mk : string -> dot_event)
    : list dot_event :=
  match p with
  | Some f => if String.eqb f EmptyString then [] else [mk f]
  | None => []
  end.

Definition requested_writes (svg pdf png dotp : option string)
    : list dot_event :=
  given_file svg WriteSvg ++ given_file pdf WritePdf ++
  given_file png WritePng ++ given_file dotp WriteRaw.

Fixpoint no_nl (s : string) : bool :=
  match s with
  | EmptyString => true
  | String c rest => negb (Ascii.eqb c (ascii_of_nat 10)) && no_nl rest
  end.

Definition attr_str (p : prop string) : string :=
  match p with Val s => s | _ => EmptyString end.

Definition attr_list (p : prop (list nat)) : list nat :=
  match p with Val l => l | _ => [] end.

(** the line the documentation describes for the function [r]:
    [op_name(uid_1, ..., uid_k) -> output_uid] *)
Definition spec_line (G : graph) (r : nat) : string :=
  (attr_str (op_name (G r)) ++ "(" ++
   join ", " (map (fun c => attr_str (uid (G c))) (attr_list (inputs (G r))))
   ++ ") -> " ++ attr_str (uid (G (hd 0 (attr_list (outputs (G r)))))))%string.

(** [x] is processed as a function node: [x.root_function.inputs] reads *)
Definition fn_entry (G : graph) (x : nat) : bool :=
  match root_function (G x) with
  | Val r => match inputs (G r) with Val _ => true | _ => false end
  | _ => false
  end.

(** every attribute the serialization of a function node reads is present,
    and the strings written to the model have no newline *)
Definition wf_fn (G : graph) (x : nat) : bool :=
  match root_function (G x) with
  | Val r =>
      match inputs (G r) with
      | Val ins =>
          match op_name (G r), uid (G r), outputs (G r) with
          | Val op, Val _, Val (o :: _) =>
              no_nl op &&
              forallb (fun c => match uid (G c), shape (G c) with
                                | Val u, Val _ => no_nl u
                                | _, _ => false
                                end) ins &&
              match uid (G o), shape (G o) with
              | Val u, Val _ => no_nl u
              | _, _ => false
              end
          | _, _, _ => false
          end
      | _ => true
      end
  | _ => true
  end.

(** the traversal of [output_function_graph] against the one of
    [depth_first_search] (visitor [lambda x: True], no depth limit): same
    stack of nodes, same visited set, and the result of [depth_first_search]
    is the list of [output_function_graph] without the output variables *)
Definition ofg_dfs_rel (G : graph) (t : dfs_state) (s : ofg_state) : Prop :=
  nodes_of (stack t) = ostack s /\ visited t = ovisited s /\
  map fst (accum t) = filter (fun x => negb (output_var G x)) (oaccum s).

Fixpoint cat (l : list string) : string :=
  match l with
  | [] => EmptyString
  | x :: t => (x ++ cat t)%string
  end.

(** the model holds one line per function node accumulated so far *)
Definition model_inv (G : graph) (s : ofg_state) : Prop :=
  model s = cat (map (fun r => (spec_line G r ++ nl)%string)
                     (filter (fn_entry G) (oaccum s))).

(** ** Facts about the loop body *)


Ltac split_matches H :=
  repeat match type of H with
         | context [match ?x with _ => _ end] =>
             lazymatch x with
             | context [match _ with _ => _ end] => fail
             | _ => destruct x; cbn in H
             end
         end.

Ltac close_body :=
  repeat split; intros; cbn in *;
  repeat match goal with
         | H : Ok _ = Ok _ |- _ => injection H as H; subst
         | H : Ok _ = Exn _ |- _ => discriminate H
         | H : Exn _ = Ok _ |- _ => discriminate H
         | H : false = true |- _ => discriminate H
         | H : true = false |- _ => discriminate H
         | H : ?v = None |- _ => is_var v; subst v
         | H : depth_ok None _ = false |- _ => discriminate H
         end;
  unfold nodes_of, incl in *; intros;
  rewrite ?map_app, ?map_rev, ?map_map in *; cbn in *; rewrite ?map_id in *;
  rewrite ?in_app_iff, <- ?in_rev in *; cbn in *;
  rewrite ?in_app_iff, <- ?in_rev in *; cbn in *;
  repeat change (map (fun x : nat * nat => snd x)) with (map (@snd nat nat)) in *;
  repeat change (map (fun x : nat * nat => fst x)) with (map (@fst nat nat)) in *;
  try solve [intuition (try subst; try discriminate; try congruence; auto)].

Section BodyFacts.

Variable G : graph.
Variable visitor : nat -> outcome bool.
Variable max_depth : option nat.

Lemma dfs_body_ok (n dist d : nat) (s s' : dfs_state) (u : unit) :
  dfs_body G visitor max_depth n dist d s = (Ok u, s') ->
  (forall y, In y (visited s') <->
             y = n \/ In y (visited s) \/
             (depth_ok max_depth d = true /\ In y (formals_of G n))) /\
  incl (stack s) (stack s') /\
  incl (nodes_of (stack s')) (nodes_of (stack s) ++ refs G n) /\
  (max_depth = None -> incl (succ_none G n) (nodes_of (stack s'))) /\
  (accum s' = accum s \/
   (accum s' = accum s ++ [(n, dist)] /\ visitor n = Ok true)) /\
  (visitor n = Ok true -> output_var_at G max_depth d n = false ->
     accum s' = accum s ++ [(n, dist)]) /\
  (output_var_at G max_depth d n = true -> accum s' = accum s).
Proof.
  destruct s as [st ac vi].
  unfold dfs_body, block_branch, function_branch, output_branch, visit_tail,
    output_var_at, succ_none, is_block, rf_attribute_error, is_output_true,
    has_owner, refs, formals_of.
  intro H; destruct (depth_ok max_depth d) eqn:Hd;
  unfold bind, try_except, getattr, ret, raise, modify, lift in H;
  cbn in H; split_matches H;
  inversion H; subst; clear H; close_body.
Qed.

Lemma dfs_body_exn (n dist d : nat) (s s' : dfs_state) (e : exc) :
  dfs_body G visitor max_depth n dist d s = (Exn e, s') ->
  e = AttributeError \/ e = RuntimeError \/ visitor n = Exn e.
Proof.
  destruct s as [st ac vi].
  unfold dfs_body, block_branch, function_branch, output_branch, visit_tail.
  intro H; destruct (depth_ok max_depth d);
  unfold bind, try_except, getattr, ret, raise, modify, lift in H;
  cbn in H; split_matches H;
  inversion H; subst; clear H; auto.
Qed.

(** A property of the loop's locals that [pop()] of a visited node and
    every completed body preserve holds when the loop ends. *)
Lemma dfs_loop_invariant (P : dfs_state -> Prop) :
  (forall s n dist d rest, P s -> stack s = (n, dist, d) :: rest ->
     mem n (visited s) = true -> P (set_stack rest s)) ->
  (forall s n dist d rest u s', P s -> stack s = (n, dist, d) :: rest ->
     mem n (visited s) = false ->
     dfs_body G visitor max_depth n dist d (set_stack rest s) = (Ok u, s') ->
     P s') ->
  forall fuel s u s', P s ->
  dfs_loop G visitor max_depth fuel s = Some (Ok u, s') ->
  P s' /\ stack s' = [].
Proof.
  intros Hpop Hbody fuel; induction fuel as [|fuel IH]; intros s u s' Hs H;
    cbn in H; [discriminate|].
  destruct (stack s) as [|[[n dist] d] rest] eqn:Hst.
  - injection H as <- <-; auto.
  - destruct (mem n (visited s)) eqn:Hm.
    + apply (IH (set_stack rest s) u s'); [eapply Hpop; eauto|exact H].
    + destruct (dfs_body G visitor max_depth n dist d (set_stack rest s))
        as [[u'|e] s2] eqn:Hb; [|discriminate].
      apply (IH s2 u s'); [eapply Hbody; eauto|exact H].
Qed.

End BodyFacts.

Lemma mem_In (x : nat) (l : list nat) : mem x l = true <-> In x l.
Proof.
  induction l as [|y l IH]; cbn; [split; [discriminate|tauto]|].
  rewrite orb_true_iff, Nat.eqb_eq, IH. intuition.
Qed.

Lemma output_var_at_of (G : graph) (md : option nat) (d x : nat) :
  output_var G x = true -> output_var_at G md d x = true.
Proof.
  unfold output_var, output_var_at. intro H.
  destruct (is_block G x), (depth_ok md d); cbn in *; auto; discriminate.
Qed.

Lemma output_var_at_None (G : graph) (d x : nat) :
  output_var_at G None d x = output_var G x.
Proof. reflexivity. Qed.

Lemma app_single_neq {A} (l : list A) (a : A) : l ++ [a] <> l.
Proof.
  intro H. apply (f_equal (@List.length A)) in H.
  rewrite length_app in H. cbn in H. lia.
Qed.

(** ** Sorting by distance *)


Lemma insert_by_distance_perm (a : nat * nat) (l : list (nat * nat)) :
  Permutation (insert_by_distance a l) (a :: l).
Proof.
  induction l as [|b l IH]; cbn [insert_by_distance]; [auto|].
  destruct (Nat.ltb (snd a) (snd b)); [auto|].
  eapply perm_trans; [apply perm_skip, IH|apply perm_swap].
Qed.

Lemma insert_by_distance_hd (a b : nat * nat) (l : list (nat * nat)) :
  HdRel le_dist b l -> snd b <= snd a ->
  HdRel le_dist b (insert_by_distance a l).
Proof.
  intros Hb Hba. destruct l as [|c l]; cbn [insert_by_distance].
  - constructor. exact Hba.
  - destruct (Nat.ltb (snd a) (snd c)); constructor; [exact Hba|].
    inversion Hb; assumption.
Qed.

Lemma insert_by_distance_sorted (a : nat * nat) (l : list (nat * nat)) :
  Sorted le_dist l -> Sorted le_dist (insert_by_distance a l).
Proof.
  induction l as [|b l IH]; intro Hs; cbn [insert_by_distance].
  - repeat constructor.
  - destruct (Nat.ltb (snd a) (snd b)) eqn:Hab.
    + apply Nat.ltb_lt in Hab. constructor; [exact Hs|].
      constructor. unfold le_dist. lia.
    + apply Nat.ltb_ge in Hab. inversion Hs; subst.
      constructor; [auto|]. apply insert_by_distance_hd; auto.
Qed.

Lemma sort_by_key_spec (l : list (nat * nat)) :
  Permutation (sort_by_key l) l /\ Sorted le_dist (sort_by_key l).
Proof.
  unfold sort_by_key.
  assert (forall acc, Sorted le_dist acc ->
    Permutation (fold_left (fun acc a => insert_by_distance a acc) l acc)
                (l ++ acc) /\
    Sorted le_dist (fold_left (fun acc a => insert_by_distance a acc) l acc))
    as Hgen.
  { induction l as [|a l IH]; intros acc Hacc; cbn; [auto|].
    destruct (IH (insert_by_distance a acc)) as [Hp Hs];
      [apply insert_by_distance_sorted; exact Hacc|].
    split; [|exact Hs].
    eapply perm_trans; [exact Hp|].
    eapply perm_trans; [apply Permutation_app_head, insert_by_distance_perm|].
    apply Permutation_sym, Permutation_middle. }
  destruct (Hgen [] (Sorted_nil _)) as [Hp Hs].
  rewrite app_nil_r in Hp. auto.
Qed.

(** ** Counting the unvisited nodes of a finite universe *)

Lemma filter_length_le (f g : nat -> bool) (U : list nat) :
  (forall x, g x = true -> f x = true) ->
  List.length (filter g U) <= List.length (filter f U).
Proof.
  intro Hgf. induction U as [|a U IH]; cbn; [lia|].
  destruct (g a) eqn:Hg; [rewrite (Hgf a Hg); cbn; lia|].
  destruct (f a); cbn; lia.
Qed.

Lemma filter_length_lt (f g : nat -> bool) (U : list nat) (n : nat) :
  (forall x, g x = true -> f x = true) ->
  In n U -> f n = true -> g n = false ->
  List.length (filter g U) < List.length (filter f U).
Proof.
  intros Hgf Hn Hf Hg. induction U as [|a U IH]; [destruct Hn|].
  destruct Hn as [<-|Hn]; cbn.
  - rewrite Hf, Hg. cbn. pose proof (filter_length_le f g U Hgf). lia.
  - specialize (IH Hn).
    destruct (g a) eqn:Hga; [rewrite (Hgf a Hga); cbn; lia|].
    destruct (f a); cbn; lia.
Qed.


(** ** Invariants of the loop *)

Section LoopFacts.

Variable G : graph.
Variable visitor : nat -> outcome bool.
Variable max_depth : option nat.

Let body_ok := dfs_body_ok G visitor max_depth.
Let loop_inv := dfs_loop_invariant G visitor max_depth.

Lemma dfs_result (fuel root : nat) (sort : bool) (l : list nat) :
  depth_first_search G fuel root visitor max_depth sort = Some (Ok l) ->
  exists s, dfs_loop G visitor max_depth fuel (dfs_init root) = Some (Ok tt, s)
    /\ l = map fst (if sort then sort_by_key (accum s) else accum s).
Proof.
  unfold depth_first_search.
  destruct (dfs_loop G visitor max_depth fuel (dfs_init root))
    as [[[[]|e] s]|]; intro H; try discriminate.
  injection H as <-. eauto.
Qed.


Lemma accum_sound_loop (fuel : nat) (s s' : dfs_state) (u : unit) :
  accum_sound G visitor s -> dfs_loop G visitor max_depth fuel s = Some (Ok u, s') ->
  accum_sound G visitor s'.
Proof.
  intros Hs H. refine (proj1 (loop_inv (accum_sound G visitor) _ _ fuel s u s' Hs H)).
  - intros s0 n dist d rest H0 _ _. exact H0.
  - intros s0 n dist d rest u0 s1 H0 _ _ Hb.
    destruct (body_ok _ _ _ _ _ _ Hb) as (_ & _ & _ & _ & Hacc & _ & Hov).
    cbn in Hacc, Hov.
    destruct Hacc as [Hacc|[Hacc Hv]]; intros a Ha; rewrite Hacc in Ha;
      [now apply H0|].
    apply in_app_iff in Ha as [Ha|[<-|[]]]; [now apply H0|].
    split; [exact Hv|]. cbn.
    destruct (output_var G n) eqn:Ho; [|reflexivity].
    exfalso. apply (app_single_neq (accum s0) (n, dist)).
    rewrite <- Hacc. apply Hov, output_var_at_of, Ho.
Qed.


Lemma accum_unique_loop (fuel : nat) (s s' : dfs_state) (u : unit) :
  accum_unique s -> dfs_loop G visitor max_depth fuel s = Some (Ok u, s') ->
  accum_unique s'.
Proof.
  intros Hs H. refine (proj1 (loop_inv accum_unique _ _ fuel s u s' Hs H)).
  - intros s0 n dist d rest H0 _ _. exact H0.
  - intros s0 n dist d rest u0 s1 [Hnd Hin] _ Hm Hb.
    destruct (body_ok _ _ _ _ _ _ Hb) as (Hvis & _ & _ & _ & Hacc & _).
    cbn in Hvis, Hacc.
    destruct Hacc as [Hacc|[Hacc _]]; split; rewrite ?Hacc.
    + exact Hnd.
    + intros a Ha. apply Hvis. right; left. now apply Hin.
    + rewrite map_app. cbn. apply NoDup_app; [exact Hnd|repeat constructor; auto|].
      intros x Hx [<-|[]]. apply in_map_iff in Hx as [a [<- Ha]].
      apply Hin, mem_In in Ha. cbn in Ha. rewrite Ha in Hm. discriminate.
    + intros a Ha. apply in_app_iff in Ha as [Ha|[<-|[]]]; apply Hvis.
      * right; left. now apply Hin.
      * now left.
Qed.

End LoopFacts.

Section Termination.

Variable G : graph.
Variable visitor : nat -> outcome bool.
Variable max_depth : option nat.
Variable U : list nat.
Hypothesis U_closed : closed G U.

Lemma incl_nodes_of (st st' : list (nat * nat * nat)) :
  incl st st' -> incl (nodes_of st) (nodes_of st').
Proof. apply incl_map. Qed.

Lemma dfs_loop_terminates_from (m : nat) :
  forall s, unvisited U (visited s) = m -> incl (nodes_of (stack s)) U ->
  exists fuel r, dfs_loop G visitor max_depth fuel s = Some r.
Proof.
  induction m as [m IHm] using lt_wf_ind.
  intros s Hm. remember (stack s) as st eqn:Hst.
  revert s Hst Hm. induction st as [|[[n dist] d] rest IHst];
    intros s Hst Hm Hinc.
  - exists 1. cbn. rewrite <- Hst. eauto.
  - assert (HnU : In n U) by (apply Hinc; now left).
    assert (Hrest : incl (nodes_of rest) U)
      by (intros y Hy; apply Hinc; now right).
    destruct (mem n (visited s)) eqn:Hmem.
    + destruct (IHst (set_stack rest s) eq_refl Hm Hrest) as [fuel [r Hr]].
      exists (S fuel), r. cbn. rewrite <- Hst, Hmem. exact Hr.
    + destruct (dfs_body G visitor max_depth n dist d (set_stack rest s))
        as [[u|e] s2] eqn:Hb.
      * destruct (dfs_body_ok G visitor max_depth _ _ _ _ _ _ Hb)
          as (Hvis & _ & Hnodes & _).
        cbn in Hvis, Hnodes.
        assert (Hlt : unvisited U (visited s2) < m).
        { subst m. unfold unvisited.
          apply (filter_length_lt _ _ U n).
          - intros x Hx. apply negb_true_iff in Hx. apply negb_true_iff.
            destruct (mem x (visited s)) eqn:Hx'; [|reflexivity].
            apply mem_In in Hx'.
            assert (In x (visited s2)) as Hx2 by (apply Hvis; auto).
            apply mem_In in Hx2. congruence.
          - exact HnU.
          - now rewrite Hmem.
          - assert (In n (visited s2)) as Hn2 by (apply Hvis; auto).
            apply mem_In in Hn2. now rewrite Hn2. }
        assert (Hinc2 : incl (nodes_of (stack s2)) U).
        { intros y Hy. apply Hnodes, in_app_iff in Hy as [Hy|Hy].
          - now apply Hrest.
          - exact (U_closed n HnU y Hy). }
        destruct (IHm _ Hlt s2 eq_refl Hinc2) as [fuel [r Hr]].
        exists (S fuel), r. cbn. rewrite <- Hst, Hmem.
        cbn in Hb. rewrite Hb. exact Hr.
      * exists 1, (Exn e, s2). cbn. rewrite <- Hst, Hmem.
        cbn in Hb. rewrite Hb. reflexivity.
Qed.

End Termination.

Section Completeness.

Variable G : graph.
Variable visitor : nat -> outcome bool.
Variable root : nat.


Lemma complete_inv_loop (fuel : nat) (s' : dfs_state) (u : unit) :
  dfs_loop G visitor None fuel (dfs_init root) = Some (Ok u, s') ->
  complete_inv G visitor root s' /\ stack s' = [].
Proof.
  intro H. apply (dfs_loop_invariant G visitor None (complete_inv G visitor root)) with
    (fuel := fuel) (s := dfs_init root) (u := u); [| |clear H|exact H].
  - intros s n dist d rest [Hroot Hx] Hst Hm.
    apply mem_In in Hm. unfold nodes_of in *. rewrite Hst in Hroot, Hx.
    cbn in *. split.
    + destruct Hroot as [Hr|[<-|Hr]]; auto.
    + intros x Hxv. destruct (Hx x Hxv) as [Hf|[Hs Ha]]; [now left|right].
      split; [|exact Ha].
      intros y Hy. specialize (Hs y Hy). cbn in Hs.
      apply in_app_iff in Hs as [Hs|[<-|Hs]]; apply in_app_iff; auto.
  - intros s n dist d rest u0 s1 [Hroot Hx] Hst Hm Hb.
    destruct (dfs_body_ok G visitor None _ _ _ _ _ _ Hb)
      as (Hvis & Hstk & _ & Hsucc & Hacc & Happ & _).
    cbn in Hvis, Hstk, Hacc, Happ.
    specialize (Hsucc eq_refl).
    assert (Hrest : incl (nodes_of rest) (nodes_of (stack s1)))
      by (apply incl_nodes_of, Hstk).
    assert (Hacc' : forall x, In x (map fst (accum s)) ->
                    In x (map fst (accum s1))).
    { intros x Hx'. destruct Hacc as [->|[-> _]]; [exact Hx'|].
      rewrite map_app. apply in_app_iff. now left. }
    unfold nodes_of in Hroot, Hx. rewrite Hst in Hroot, Hx. cbn in Hroot, Hx.
    split.
    + destruct Hroot as [Hr|[<-|Hr]].
      * left. apply Hvis. auto.
      * left. apply Hvis. auto.
      * right. now apply Hrest.
    + intros x Hxv. apply Hvis in Hxv as [->|[Hxv|[_ Hf]]].
      * right. split.
        -- intros y Hy. apply in_app_iff. right. now apply Hsucc.
        -- intros Hv Ho. rewrite (Happ Hv Ho), map_app. apply in_app_iff.
           right. now left.
      * destruct (Hx x Hxv) as [Hf|[Hs Ha]]; [now left|right].
        split.
        -- intros y Hy. specialize (Hs y Hy).
           apply in_app_iff in Hs as [Hs|[<-|Hs]]; apply in_app_iff.
           ++ left. apply Hvis. auto.
           ++ left. apply Hvis. auto.
           ++ right. now apply Hrest.
        -- intros Hv Ho. apply Hacc', Ha; auto.
      * left. exists n. exact Hf.
  - split; [right; now left|]. intros x [].
Qed.

Lemma clear_path_visited (s : dfs_state) :
  complete_inv G visitor root s -> stack s = [] ->
  forall x z, clear_path G x z -> In x (visited s) -> In z (visited s).
Proof.
  intros [_ Hx] Hst x z Hp. induction Hp as [x _|x y z Hnf Hy _ IH]; auto.
  intro Hxv. apply IH.
  destruct (Hx x Hxv) as [Hf|[Hs _]]; [contradiction|].
  specialize (Hs y Hy). rewrite Hst in Hs. cbn in Hs.
  now rewrite app_nil_r in Hs.
Qed.

End Completeness.

Lemma clear_path_end_not_formal (G : graph) (x z : nat) :
  clear_path G x z -> ~ formal G z.
Proof. induction 1; auto. Qed.

Lemma closedb_closed (G : graph) (U : list nat) :
  closedb G U = true -> closed G U.
Proof.
  unfold closedb, closed. rewrite forallb_forall. intros H x Hx y Hy.
  specialize (H x Hx). rewrite forallb_forall in H.
  apply mem_In, H, Hy.
Qed.

Lemma result_in_accum (s : dfs_state) (sort : bool) (x : nat) :
  In x (map fst (if sort then sort_by_key (accum s) else accum s)) <->
  In x (map fst (accum s)).
Proof.
  destruct sort; [|tauto].
  destruct (sort_by_key_spec (accum s)) as [Hp _].
  split; apply Permutation_in;
    [apply Permutation_map, Hp|apply Permutation_map, Permutation_sym, Hp].
Qed.

(** ** Claims about depth_first_search *)

(** C1 (as stated, refuted).  The claim says every node reachable from
    [root] that satisfies the visitor is returned.  On [ex_chain] the output
    variable 1 is reached from the root, satisfies the always-true visitor,
    and is not in the result. *)
Lemma dfs_misses_output_variable :
  depth_first_search ex_chain 20 0 (fun _ => Ok true) None false
    = Some (Ok [0; 2; 3]) /\
  reach_none ex_chain 0 1 /\ ~ In 1 [0; 2; 3].
Proof.
  split; [reflexivity|split].
  - apply (reach_step _ 0 1 1); [cbn; auto|apply reach_refl].
  - cbn. intuition discriminate.
Qed.

(** C1 (amended).  Every element of the result satisfies the visitor and is
    not an output variable.  With [max_depth = None], every node reached from
    [root] along the traversal's edges by a path through no formal composite
    input of a block, that satisfies the visitor and is not an output
    variable, is in the result. *)
Theorem depth_first_search_sound_complete (G : graph)
    (visitor : nat -> outcome bool) (max_depth : option nat)
    (sort_by_distance : bool) (fuel root : nat) (l : list nat) :
  depth_first_search G fuel root visitor max_depth sort_by_distance
    = Some (Ok l) ->
  (forall x, In x l -> visitor x = Ok true /\ output_var G x = false) /\
  (max_depth = None ->
   forall z, clear_path G root z -> visitor z = Ok true ->
   output_var G z = false -> In z l).
Proof.
  intro H. destruct (dfs_result G visitor max_depth fuel root _ l H)
    as [s [Hl ->]].
  split.
  - intros x Hx. apply result_in_accum, in_map_iff in Hx as [a [<- Ha]].
    apply (accum_sound_loop G visitor max_depth fuel (dfs_init root) s tt);
      [intros ? []|exact Hl|exact Ha].
  - intros -> z Hp Hv Ho. apply result_in_accum.
    destruct (complete_inv_loop G visitor root fuel s tt Hl) as [Hinv Hst].
    pose proof Hinv as [Hroot Hx]. rewrite Hst in Hroot. cbn in Hroot.
    destruct Hroot as [Hroot|[]].
    assert (Hz : In z (visited s))
      by (eapply clear_path_visited; eauto).
    destruct (Hx z Hz) as [Hf|[_ Ha]]; [|auto].
    exfalso. exact (clear_path_end_not_formal G root z Hp Hf).
Qed.

Lemma depth_first_search_sound_complete_witness :
  depth_first_search ex_chain 20 0 (fun _ => Ok true) None false
    = Some (Ok [0; 2; 3]) /\
  ((forall x, In x [0; 2; 3] ->
     (fun _ : nat => Ok true) x = Ok true /\ output_var ex_chain x = false) /\
   (@None nat = None ->
    forall z, clear_path ex_chain 0 z -> (fun _ : nat => Ok true) z = Ok true ->
    output_var ex_chain z = false -> In z [0; 2; 3])).
Proof.
  split; [reflexivity|].
  apply (depth_first_search_sound_complete ex_chain (fun _ => Ok true) None
           false 20 0 [0; 2; 3]).
  reflexivity.
Defined.

(** C2.  On a finite graph (a list [U] of objects containing [root] and
    closed under the attributes' references), cycles included, the loop
    terminates, and the result never lists a node twice. *)
Theorem depth_first_search_terminates_no_duplicates (G : graph)
    (visitor : nat -> outcome bool) (max_depth : option nat)
    (sort_by_distance : bool) (root : nat) (U : list nat)
    (Hroot : In root U) (Hclosed : closedb G U = true) :
  (exists fuel r,
     depth_first_search G fuel root visitor max_depth sort_by_distance
       = Some r) /\
  (forall fuel l,
     depth_first_search G fuel root visitor max_depth sort_by_distance
       = Some (Ok l) -> NoDup l).
Proof.
  split.
  - destruct (dfs_loop_terminates_from G visitor max_depth U
                (closedb_closed G U Hclosed) _ (dfs_init root) eq_refl)
      as [fuel [r Hr]].
    { intros y [<-|[]]. exact Hroot. }
    exists fuel. unfold depth_first_search. rewrite Hr.
    destruct r as [[u|e] s]; eauto.
  - intros fuel l H.
    destruct (dfs_result G visitor max_depth fuel root _ l H) as [s [Hl ->]].
    destruct (accum_unique_loop G visitor max_depth fuel (dfs_init root) s tt)
      as [Hnd _]; [split; [constructor|intros ? []]|exact Hl|].
    destruct sort_by_distance; [|exact Hnd].
    eapply Permutation_NoDup; [|exact Hnd].
    apply Permutation_map, Permutation_sym, sort_by_key_spec.
Qed.

Lemma depth_first_search_terminates_no_duplicates_witness :
  In 0 [0; 1] /\ closedb ex_cycle [0; 1] = true /\
  ((exists fuel r,
     depth_first_search ex_cycle fuel 0 (fun _ => Ok true) None false
       = Some r) /\
   (forall fuel l,
     depth_first_search ex_cycle fuel 0 (fun _ => Ok true) None false
       = Some (Ok l) -> NoDup l)).
Proof.
  split; [simpl; left; reflexivity|split; [reflexivity|]].
  apply (depth_first_search_terminates_no_duplicates ex_cycle
           (fun _ => Ok true) None false 0 [0; 1]);
    [simpl; left; reflexivity|reflexivity].
Defined.

Ltac unfold_body :=
  unfold dfs_body, block_branch, function_branch, output_branch, visit_tail,
    bind, try_except, getattr, ret, raise, modify, lift.

(** C3.  A block node popped unvisited at block depth [d]: below the depth
    limit it is expanded (actual inputs pushed at [distance+1] and depth [d],
    formal inputs marked visited, the composite pushed at depth [d+1]); at or
    beyond an integer limit the block is processed exactly as the same node
    without block attributes, so [root_function.inputs] are pushed at depth
    [d]. *)
Theorem dfs_block_expansion (G : graph) (visitor : nat -> outcome bool)
    (max_depth : option nat) (fuel n dist d : nat)
    (rest : list (nat * nat * nat)) (s : dfs_state) (c : nat)
    (m : list (nat * nat)) (b : bool)
    (Hst : stack s = (n, dist, d) :: rest)
    (Hnv : mem n (visited s) = false)
    (Hc : block_root (G n) = Val c)
    (Hm : block_arguments_mapping (G n) = Val m)
    (Hb : visitor n = Ok b) :
  ((max_depth = None \/ exists k, max_depth = Some k /\ d < k) ->
   dfs_loop G visitor max_depth (S fuel) s =
   dfs_loop G visitor max_depth fuel
     (mk_dfs ((c, S dist, S d) :: rev (map (fun p => (snd p, S dist, d)) m)
                ++ rest)
             (if b then accum s ++ [(n, dist)] else accum s)
             (n :: map fst m ++ visited s))) /\
  (forall k, max_depth = Some k -> k <= d ->
   dfs_body G visitor max_depth n dist d (set_stack rest s) =
   dfs_body (without_block G n) visitor max_depth n dist d (set_stack rest s)
   /\
   forall r is, root_function (G n) = Val r -> inputs (G r) = Val is ->
   dfs_loop G visitor max_depth (S fuel) s =
   dfs_loop G visitor max_depth fuel
     (mk_dfs (rev (map (fun i => (i, S dist, d)) is) ++ rest)
             (if b then accum s ++ [(n, dist)] else accum s)
             (n :: visited s))).
Proof.
  destruct s as [st ac vi]; cbn in Hst, Hnv |- *; subst st.
  split.
  - intro Hd.
    assert (Hok : depth_ok max_depth d = true).
    { destruct Hd as [->|[k [-> Hk]]]; cbn; [reflexivity|].
      apply Nat.ltb_lt; exact Hk. }
    rewrite Hnv. unfold dfs_body. rewrite Hok. unfold_body.
    rewrite Hc, Hm, Hb. destruct b; reflexivity.
  - intros k Hk Hkd.
    assert (Hok : depth_ok max_depth d = false)
      by (subst max_depth; cbn; apply Nat.ltb_ge; exact Hkd).
    split.
    + unfold dfs_body. rewrite Hok. unfold_body. unfold without_block.
      rewrite Nat.eqb_refl. cbn.
      destruct (root_function (G n)) as [r| |]; cbn; try reflexivity.
      destruct (Nat.eqb_spec r n) as [->|_]; reflexivity.
    + intros r is Hr Hi. rewrite Hnv. unfold dfs_body. rewrite Hok.
      unfold_body. rewrite Hr, Hi, Hb. destruct b; reflexivity.
Qed.

Lemma dfs_block_expansion_witness :
  ((@None nat = None \/ exists k, @None nat = Some k /\ 0 < k) ->
   dfs_loop ex_block (fun _ => Ok true) None 5 (mk_dfs [(0, 0, 0)] [] []) =
   dfs_loop ex_block (fun _ => Ok true) None 4
     (mk_dfs ((5, 1, 1) :: rev (map (fun p => (snd p, 1, 0)) [(6, 1)]) ++ [])
             (if true then [] ++ [(0, 0)] else [])
             (0 :: map fst [(6, 1)] ++ []))) /\
  (forall k, @None nat = Some k -> k <= 0 ->
   dfs_body ex_block (fun _ => Ok true) None 0 0 0
     (set_stack [] (mk_dfs [(0, 0, 0)] [] [])) =
   dfs_body (without_block ex_block 0) (fun _ => Ok true) None 0 0 0
     (set_stack [] (mk_dfs [(0, 0, 0)] [] []))
   /\
   forall r is, root_function (ex_block 0) = Val r ->
   inputs (ex_block r) = Val is ->
   dfs_loop ex_block (fun _ => Ok true) None 5 (mk_dfs [(0, 0, 0)] [] []) =
   dfs_loop ex_block (fun _ => Ok true) None 4
     (mk_dfs (rev (map (fun i => (i, 1, 0)) is) ++ [])
             (if true then [] ++ [(0, 0)] else [])
             (0 :: []))).
Proof.
  exact (dfs_block_expansion ex_block (fun _ => Ok true) None 4 0 0 0 []
           (mk_dfs [(0, 0, 0)] [] []) 5 [(6, 1)] true
           eq_refl eq_refl eq_refl eq_refl eq_refl).
Defined.

(** C4.  With [sort_by_distance] the result lists the accumulated
    (node, distance) pairs in non-decreasing order of distance (a permutation
    of them); without it the result keeps the accumulation order. *)
Theorem depth_first_search_sort_by_distance (G : graph)
    (visitor : nat -> outcome bool) (max_depth : option nat)
    (fuel root : nat) (s : dfs_state)
    (H : dfs_loop G visitor max_depth fuel (dfs_init root) = Some (Ok tt, s)) :
  depth_first_search G fuel root visitor max_depth false
    = Some (Ok (map fst (accum s))) /\
  exists sorted,
    depth_first_search G fuel root visitor max_depth true
      = Some (Ok (map fst sorted)) /\
    Permutation sorted (accum s) /\ Sorted le_dist sorted.
Proof.
  unfold depth_first_search. rewrite H. split; [reflexivity|].
  exists (sort_by_key (accum s)).
  destruct (sort_by_key_spec (accum s)). auto.
Qed.

Lemma depth_first_search_sort_by_distance_witness :
  dfs_loop ex_chain (fun _ => Ok true) None 20 (dfs_init 0)
    = Some (Ok tt, mk_dfs [] [(0, 0); (2, 2); (3, 3)] [3; 2; 1; 0]) /\
  (depth_first_search ex_chain 20 0 (fun _ => Ok true) None false
     = Some (Ok (map fst [(0, 0); (2, 2); (3, 3)])) /\
   exists sorted,
     depth_first_search ex_chain 20 0 (fun _ => Ok true) None true
       = Some (Ok (map fst sorted)) /\
     Permutation sorted [(0, 0); (2, 2); (3, 3)] /\ Sorted le_dist sorted).
Proof.
  split; [reflexivity|].
  apply (depth_first_search_sort_by_distance ex_chain (fun _ => Ok true) None
           20 0 (mk_dfs [] [(0, 0); (2, 2); (3, 3)] [3; 2; 1; 0])).
  reflexivity.
Defined.

(** C5.  A node popped unvisited that has no [block_root], no
    [root_function] and no [is_output]: the iteration completes without an
    exception of its own, pushes nothing, marks the node visited and applies
    the visitor to it (accumulating it when the visitor says [True], and
    propagating the visitor's own exception when it raises). *)
Theorem dfs_attributeless_node (G : graph) (visitor : nat -> outcome bool)
    (max_depth : option nat) (fuel n dist d : nat)
    (rest : list (nat * nat * nat)) (s : dfs_state)
    (Hst : stack s = (n, dist, d) :: rest)
    (Hnv : mem n (visited s) = false)
    (Hbr : block_root (G n) = Missing)
    (Hrf : root_function (G n) = Missing)
    (Hio : is_output (G n) = Missing) :
  (forall b, visitor n = Ok b ->
   dfs_loop G visitor max_depth (S fuel) s =
   dfs_loop G visitor max_depth fuel
     (mk_dfs rest (if b then accum s ++ [(n, dist)] else accum s)
             (n :: visited s))) /\
  (forall e, visitor n = Exn e ->
   dfs_loop G visitor max_depth (S fuel) s =
   Some (Exn e, mk_dfs rest (accum s) (visited s))).
Proof.
  destruct s as [st ac vi]; cbn in Hst, Hnv |- *; subst st.
  rewrite Hnv. split; intros ? Hv; unfold dfs_body;
    destruct (depth_ok max_depth d); unfold_body;
    rewrite ?Hbr, Hrf, Hio, Hv; cbn; try destruct b; reflexivity.
Qed.

Lemma dfs_attributeless_node_witness :
  (forall b, (fun _ : nat => Ok true) 9 = Ok b ->
   dfs_loop ex_chain (fun _ => Ok true) None 3 (mk_dfs [(9, 1, 0)] [] []) =
   dfs_loop ex_chain (fun _ => Ok true) None 2
     (mk_dfs [] (if b then [] ++ [(9, 1)] else []) (9 :: []))) /\
  (forall e, (fun _ : nat => Ok true) 9 = Exn e ->
   dfs_loop ex_chain (fun _ => Ok true) None 3 (mk_dfs [(9, 1, 0)] [] []) =
   Some (Exn e, mk_dfs [] [] [])).
Proof.
  exact (dfs_attributeless_node ex_chain (fun _ => Ok true) None 2 9 1 0 []
           (mk_dfs [(9, 1, 0)] [] []) eq_refl eq_refl eq_refl eq_refl
           eq_refl).
Defined.

Lemma dfs_loop_exn (G : graph) (visitor : nat -> outcome bool)
    (max_depth : option nat) (fuel : nat) (s s' : dfs_state) (e : exc) :
  dfs_loop G visitor max_depth fuel s = Some (Exn e, s') ->
  e = AttributeError \/ e = RuntimeError \/ exists n, visitor n = Exn e.
Proof.
  revert s; induction fuel as [|fuel IH]; intros s H; cbn in H;
    [discriminate|].
  destruct (stack s) as [|[[n dist] d] rest]; [discriminate|].
  destruct (mem n (visited s)); [eapply IH; exact H|].
  destruct (dfs_body G visitor max_depth n dist d (set_stack rest s))
    as [[u|e'] s2] eqn:Hb; [eapply IH; exact H|].
  injection H as -> _.
  destruct (dfs_body_exn G visitor max_depth _ _ _ _ _ _ Hb) as [|[|]]; eauto.
Qed.

Lemma depth_first_search_exn (G : graph) (visitor : nat -> outcome bool)
    (max_depth : option nat) (sort : bool) (fuel root : nat) (e : exc) :
  depth_first_search G fuel root visitor max_depth sort = Some (Exn e) ->
  e = AttributeError \/ e = RuntimeError \/ exists n, visitor n = Exn e.
Proof.
  unfold depth_first_search.
  destruct (dfs_loop G visitor max_depth fuel (dfs_init root))
    as [[[u|e'] s]|] eqn:H; intro Hr; try discriminate.
  injection Hr as <-. eapply dfs_loop_exn; exact H.
Qed.

Lemma name_matches_exn (G : graph) (nn : pyval) (x : nat) (e : exc) :
  name_matches G nn x = Exn e -> e = AttributeError \/ e = RuntimeError.
Proof.
  unfold name_matches. destruct (name (G x)); intro H; inversion H; auto.
Qed.

Lemma name_matches_true (G : graph) (s : string) (x : nat) :
  name_matches G (PyStr s) x = Ok true -> name (G x) = Val s.
Proof.
  unfold name_matches. destruct (name (G x)) as [n| |]; intro H;
    inversion H as [Heq]. apply String.eqb_eq in Heq. now subst.
Qed.

Lemma depth_first_search_no_value_error (G : graph) (nn : pyval)
    (max_depth : option nat) (sort : bool) (fuel root : nat) (msg : string) :
  depth_first_search G fuel root (name_matches G nn) max_depth sort
    <> Some (Exn (ValueError msg)).
Proof.
  intro H. apply depth_first_search_exn in H as [H|[H|[n H]]];
    try discriminate.
  apply name_matches_exn in H as [H|H]; discriminate.
Qed.

Lemma depth_first_search_members (G : graph) (visitor : nat -> outcome bool)
    (max_depth : option nat) (sort : bool) (fuel root x : nat)
    (l : list nat) :
  depth_first_search G fuel root visitor max_depth sort = Some (Ok l) ->
  In x l -> visitor x = Ok true /\ output_var G x = false.
Proof.
  intros H Hx. destruct (dfs_result G visitor max_depth fuel root _ l H)
    as [s [Hl ->]].
  apply result_in_accum, in_map_iff in Hx as [a [<- Ha]].
  apply (accum_sound_loop G visitor max_depth fuel (dfs_init root) s tt);
    [intros ? []|exact Hl|exact Ha].
Qed.

(** C10 (as stated, refuted).  The object 0 of [ex_output_block] lacks
    [root_function] and answers [is_output = True], but it also has block
    attributes: the block probe comes first, so it is accumulated, and
    [find_by_name] returns it. *)
Lemma output_flag_not_enough :
  root_function (ex_output_block 0) = Missing /\
  is_output (ex_output_block 0) = Val true /\
  depth_first_search ex_output_block 20 0 (fun _ => Ok true) None false
    = Some (Ok [0; 1]) /\
  find_by_name ex_output_block 20 0 (PyStr "x") None = Some (Ok (Some 0)).
Proof. repeat split; reflexivity. Qed.

(** C10 (amended).  An output variable ([output_var]: no pair of block
    attributes, [root_function.inputs] raises [AttributeError], [is_output]
    is true, [owner] is readable) is processed without consulting the
    visitor: its owner is pushed at [distance+1] in its place and it is only
    marked visited.  It never appears in the result of
    [depth_first_search], nor is it returned by the name lookups. *)
Theorem output_variable_never_returned (G : graph)
    (visitor : nat -> outcome bool) (max_depth : option nat)
    (sort_by_distance : bool) (fuel root n o dist d : nat) (s : dfs_state)
    (Hov : output_var G n = true) (Ho : owner (G n) = Val o) :
  (forall visitor',
     dfs_body G visitor max_depth n dist d s
     = dfs_body G visitor' max_depth n dist d s) /\
  dfs_body G visitor max_depth n dist d s
    = (Ok tt, mk_dfs ((o, S dist, d) :: stack s) (accum s) (n :: visited s)) /\
  (forall l, depth_first_search G fuel root visitor max_depth
               sort_by_distance = Some (Ok l) -> ~ In n l) /\
  (forall nn, find_by_name G fuel root nn max_depth <> Some (Ok (Some n))) /\
  (forall nn, try_find_closest_by_name G fuel root nn max_depth
                <> Some (Ok (Some n))).
Proof.
  assert (Hbody : forall v, dfs_body G v max_depth n dist d s
    = (Ok tt, mk_dfs ((o, S dist, d) :: stack s) (accum s) (n :: visited s))).
  { intro v. revert Hov.
    unfold output_var, is_block, rf_attribute_error, is_output_true,
      has_owner.
    destruct s as [st ac vi]. unfold dfs_body.
    destruct (depth_ok max_depth d); unfold_body; rewrite Ho;
      destruct (block_root (G n)); destruct (block_arguments_mapping (G n));
      destruct (root_function (G n)) as [r| |];
      try destruct (inputs (G r));
      destruct (is_output (G n)) as [[|]| |]; cbn; intro H;
      try discriminate H; reflexivity. }
  assert (Hnot : forall v sort l,
    depth_first_search G fuel root v max_depth sort = Some (Ok l) ->
    ~ In n l).
  { intros v sort l H Hn.
    destruct (depth_first_search_members G v max_depth sort fuel root n l H Hn)
      as [_ Hf]. congruence. }
  split; [intro v; now rewrite !Hbody|].
  split; [apply Hbody|].
  split; [apply Hnot|].
  split; intros nn; unfold find_by_name, try_find_closest_by_name;
    destruct nn as [str|]; try discriminate.
  - destruct (depth_first_search G fuel root (name_matches G (PyStr str))
                max_depth false) as [[l|e]|] eqn:H; try discriminate.
    destruct (Nat.ltb 1 (List.length l)); try discriminate.
    destruct l as [|x l]; try discriminate. intro Hx. injection Hx as ->.
    apply (Hnot _ _ _ H). now left.
  - destruct (depth_first_search G fuel root (name_matches G (PyStr str))
                max_depth true) as [[l|e]|] eqn:H; try discriminate.
    destruct l as [|x l]; try discriminate. intro Hx. injection Hx as ->.
    apply (Hnot _ _ _ H). now left.
Qed.

Lemma output_variable_never_returned_witness :
  output_var ex_chain 1 = true /\ owner (ex_chain 1) = Val 2 /\
  ((forall visitor',
     dfs_body ex_chain (fun _ => Ok true) None 1 1 0 (mk_dfs [] [(0, 0)] [0])
     = dfs_body ex_chain visitor' None 1 1 0 (mk_dfs [] [(0, 0)] [0])) /\
   dfs_body ex_chain (fun _ => Ok true) None 1 1 0 (mk_dfs [] [(0, 0)] [0])
     = (Ok tt, mk_dfs ((2, 2, 0) :: []) [(0, 0)] (1 :: [0])) /\
   (forall l, depth_first_search ex_chain 20 0 (fun _ => Ok true) None false
                = Some (Ok l) -> ~ In 1 l) /\
   (forall nn, find_by_name ex_chain 20 0 nn None <> Some (Ok (Some 1))) /\
   (forall nn, try_find_closest_by_name ex_chain 20 0 nn None
                 <> Some (Ok (Some 1)))).
Proof.
  split; [reflexivity|split; [reflexivity|]].
  exact (output_variable_never_returned ex_chain (fun _ => Ok true) None false
           20 0 1 2 1 0 (mk_dfs [] [(0, 0)] [0]) eq_refl eq_refl).
Defined.

(** C9.  [find_by_name] raises [ValueError] exactly when the name is not a
    string or the search finds several nodes; otherwise it returns [None]
    when nothing is found and the single node found, whose name is the
    searched one.  The graph is an argument of the embedding, which returns
    no new graph: it is left unchanged. *)
Theorem find_by_name_spec (G : graph) (fuel node : nat) (node_name : pyval)
    (max_depth : option nat) (r : outcome (option nat))
    (H : find_by_name G fuel node node_name max_depth = Some r) :
  ((exists msg, r = Exn (ValueError msg)) <->
   node_name = PyOther \/
   exists l, depth_first_search G fuel node (name_matches G node_name)
               max_depth false = Some (Ok l) /\ 1 < List.length l) /\
  (r = Ok None <->
   (exists s, node_name = PyStr s) /\
   depth_first_search G fuel node (name_matches G node_name) max_depth false
     = Some (Ok [])) /\
  (forall x, r = Ok (Some x) <->
   (exists s, node_name = PyStr s /\ name (G x) = Val s) /\
   depth_first_search G fuel node (name_matches G node_name) max_depth false
     = Some (Ok [x])).
Proof.
  revert H. unfold find_by_name. destruct node_name as [str|].
  2: { intro H. injection H as <-. split; [|split].
       - split; [auto|]. intros _. eauto.
       - split; [discriminate|]. intros [[s' Hs] _]. discriminate.
       - intro x. split; [discriminate|]. intros [[s' [Hs _]] _].
         discriminate. }
  destruct (depth_first_search G fuel node (name_matches G (PyStr str))
              max_depth false) as [[l|e]|] eqn:Hd; intro H; [| |discriminate].
  - destruct (Nat.ltb 1 (List.length l)) eqn:Hlt.
    + injection H as <-. apply Nat.ltb_lt in Hlt. split; [|split].
      * split; [|eauto]. intros _. right. eauto.
      * split; [discriminate|]. intros [_ He]. injection He as ->.
        cbn in Hlt. lia.
      * intro x. split; [discriminate|]. intros [_ He]. injection He as ->.
        cbn in Hlt. lia.
    + apply Nat.ltb_ge in Hlt.
      destruct l as [|y [|z l]]; cbn in Hlt; [| |lia];
        injection H as <-; refine (conj _ (conj _ _)).
      * split; [intros [msg Hm]; discriminate|].
        intros [Hp|[l' [He Hl']]]; [discriminate|].
        injection He as <-. cbn in Hl'. lia.
      * split; [intros _; split; eauto|reflexivity].
      * intro x. split; [discriminate|]. intros [_ He]. discriminate.
      * split; [intros [msg Hm]; discriminate|].
        intros [Hp|[l' [He Hl']]]; [discriminate|].
        injection He as <-. cbn in Hl'. lia.
      * split; [discriminate|]. intros [_ He]. discriminate.
      * intro x. split.
        -- intro Hx. injection Hx as <-. split; [|reflexivity].
           exists str. split; [reflexivity|].
           apply name_matches_true.
           apply (depth_first_search_members G _ max_depth false fuel node y
                    [y] Hd). now left.
        -- intros [_ He]. injection He as ->. reflexivity.
  - injection H as <-. split; [|split].
    + split.
      * intros [msg Hm]. injection Hm as ->.
        exfalso. exact (depth_first_search_no_value_error G _ _ _ _ _ _ Hd).
      * intros [Hp|[l' [He _]]]; discriminate.
    + split; [discriminate|]. intros [_ He]. discriminate.
    + intro x. split; [discriminate|]. intros [_ He]. discriminate.
Qed.

Lemma find_by_name_spec_witness :
  find_by_name ex_chain 20 0 (PyStr "h") None = Some (Ok (Some 2)) /\
  (((exists msg, @Ok (option nat) (Some 2) = Exn (ValueError msg)) <->
    PyStr "h" = PyOther \/
    exists l, depth_first_search ex_chain 20 0 (name_matches ex_chain (PyStr "h"))
                None false = Some (Ok l) /\ 1 < List.length l) /\
   (@Ok (option nat) (Some 2) = Ok None <->
    (exists s, PyStr "h" = PyStr s) /\
    depth_first_search ex_chain 20 0 (name_matches ex_chain (PyStr "h")) None
      false = Some (Ok [])) /\
   (forall x, @Ok (option nat) (Some 2) = Ok (Some x) <->
    (exists s, PyStr "h" = PyStr s /\ name (ex_chain x) = Val s) /\
    depth_first_search ex_chain 20 0 (name_matches ex_chain (PyStr "h")) None
      false = Some (Ok [x]))).
Proof.
  split; [reflexivity|].
  apply (find_by_name_spec ex_chain 20 0 (PyStr "h") None (Ok (Some 2))).
  reflexivity.
Defined.

(** ** output_function_graph: preserved properties of the state *)

Lemma stable_bind {S A B} (P : S -> Prop) (m : M S A) (k : A -> M S B) :
  stable P m -> (forall a, stable P (k a)) -> stable P (bind m k).
Proof.
  intros Hm Hk s Hs. unfold bind.
  specialize (Hm s Hs). destruct (m s) as [[a|e] s']; cbn in *; auto.
  apply Hk, Hm.
Qed.

Lemma stable_ret {S A} (P : S -> Prop) (a : A) : stable P (ret a).
Proof. intros s Hs. exact Hs. Qed.

Lemma stable_raise {S A} (P : S -> Prop) (e : exc) : stable P (@raise S A e).
Proof. intros s Hs. exact Hs. Qed.

Lemma stable_getattr {S A} (P : S -> Prop) (p : prop A) :
  stable P (@getattr S A p).
Proof. intros s Hs. destruct p; exact Hs. Qed.

Lemma stable_modify {S} (P : S -> Prop) (f : S -> S) :
  (forall s, P s -> P (f s)) -> stable P (modify f).
Proof. intros Hf s Hs. exact (Hf s Hs). Qed.

Lemma stable_if {S A} (P : S -> Prop) (b : bool) (m1 m2 : M S A) :
  (b = true -> stable P m1) -> (b = false -> stable P m2) ->
  stable P (if b then m1 else m2).
Proof. destruct b; auto. Qed.

Lemma stable_try {S A} (P : S -> Prop) (m h : M S A) (c : exc -> bool) :
  stable P m -> stable P h -> stable P (try_except m c h).
Proof.
  intros Hm Hh s Hs. unfold try_except.
  specialize (Hm s Hs). destruct (m s) as [[a|e] s']; cbn in *; auto.
  destruct (c e); auto.
Qed.

Ltac stab HM HD :=
  repeat match goal with
  | |- stable _ (bind _ _) => apply stable_bind; [|intros ?]
  | |- stable _ (ret _) => apply stable_ret
  | |- stable _ (raise _) => apply stable_raise
  | |- stable _ (getattr _) => apply stable_getattr
  | |- stable _ (try_except _ _ _) => apply stable_try
  | |- stable _ (modify (add_model _)) =>
      apply stable_modify; intros ? ?; apply HM; assumption
  | |- stable _ (modify (add_dot _)) =>
      apply stable_modify; intros ? ?; apply HD; [assumption|reflexivity|assumption]
  | |- stable _ (if _ then _ else _) => apply stable_if; intros ?
  | |- stable _ (match ?l with [] => _ | _ :: _ => _ end) => destruct l
  | |- stable _ (let _ := _ in _) => cbv zeta
  end.

Section Stable.
Variable G : graph.
Variable wtf : bool.
Variable P : ofg_state -> Prop.
Hypothesis HM : forall s str, P s -> P (add_model str s).
Hypothesis HD : forall s ev, wtf = true -> is_write ev = false -> P s -> P (add_dot ev s).

Lemma stable_serialize_inputs (cur : string) (ins : list nat) :
  stable P (serialize_inputs G wtf cur ins).
Proof.
  induction ins as [|c rest IH]; cbn [serialize_inputs]; [apply stable_ret|].
  stab HM HD. exact IH.
Qed.

Lemma stable_first_output (r : nat) : stable P (first_output G r).
Proof. unfold first_output. stab HM HD. Qed.

Lemma stable_ofg_serialize (r : nat) (ins : list nat) :
  stable P (ofg_serialize G wtf r ins).
Proof.
  unfold ofg_serialize. stab HM HD; try apply stable_serialize_inputs;
    try apply stable_first_output.
Qed.
End Stable.

(** ** output_function_graph against depth_first_search *)

Lemma ofg_body_eq (G : graph) (wtf : bool) (s : ofg_state) :
  ofg_body G wtf s =
  match try_except (ofg_function_branch G wtf) is_attribute_error
          (ofg_output_branch G) s with
  | (Ok _, s2) => (Ok tt, ovisit (onode s2) (oappend (onode s2) s2))
  | (Exn e, s2) => (Exn e, s2)
  end.
Proof.
  unfold ofg_body, bind, get_node, modify, ret.
  destruct (try_except _ _ _ s) as [[]]; reflexivity.
Qed.

Lemma ofg_function_branch_eq (G : graph) (wtf : bool) (s : ofg_state) :
  ofg_function_branch G wtf s =
  match root_function (G (onode s)) with
  | Val r =>
      match inputs (G r) with
      | Val ins => ofg_serialize G wtf r ins (oextend ins (set_onode r s))
      | Missing => (Exn AttributeError, set_onode r s)
      | Throws => (Exn RuntimeError, set_onode r s)
      end
  | Missing => (Exn AttributeError, s)
  | Throws => (Exn RuntimeError, s)
  end.
Proof.
  unfold ofg_function_branch, bind, get_node, getattr, modify, ret, raise.
  destruct (root_function (G (onode s))); [|reflexivity|reflexivity].
  cbn. destruct (inputs (G a)); reflexivity.
Qed.

Lemma ofg_output_branch_eq (G : graph) (s : ofg_state) :
  ofg_output_branch G s =
  match is_output (G (onode s)) with
  | Val true =>
      match owner (G (onode s)) with
      | Val o => (Ok tt, opush o s)
      | Missing => (Ok tt, s)
      | Throws => (Exn RuntimeError, s)
      end
  | Val false | Missing => (Ok tt, s)
  | Throws => (Exn RuntimeError, s)
  end.
Proof.
  unfold ofg_output_branch, try_except, bind, get_node, getattr, modify,
    ret, raise.
  destruct (is_output (G (onode s))) as [[]| |]; cbn; try reflexivity.
  destruct (owner (G (onode s))); reflexivity.
Qed.

Lemma core_add_model (s : ofg_state) (str : string) (c : list nat * list nat * list nat * nat) :
  core s = c -> core (add_model str s) = c.
Proof. intros <-. reflexivity. Qed.

Lemma core_add_dot (s : ofg_state) (ev : dot_event) (c : list nat * list nat * list nat * nat) :
  core s = c -> core (add_dot ev s) = c.
Proof. intros <-. reflexivity. Qed.

Lemma ofg_serialize_core (G : graph) (wtf : bool) (r : nat) (ins : list nat)
    (s : ofg_state) :
  core (snd (ofg_serialize G wtf r ins s)) = core s.
Proof.
  apply (stable_ofg_serialize G wtf (fun s0 => core s0 = core s));
    [intros; now apply core_add_model|intros; now apply core_add_dot|reflexivity].
Qed.

Lemma dfs_body_noblock (G : graph) (v : nat -> outcome bool)
    (md : option nat) (x dist d : nat) (t : dfs_state)
    (Hnb : is_block G x = false) :
  dfs_body G v md x dist d t =
  match function_branch G x dist d t with
  | (Ok Continue, t2) => (Ok tt, t2)
  | (Ok Next, t2) => visit_tail v x dist t2
  | (Exn e, t2) => (Exn e, t2)
  end.
Proof.
  unfold is_block in Hnb. unfold dfs_body, bind at 1.
  assert (Hblk : (if depth_ok md d
                  then try_except (block_branch G v x dist d) any_exc (ret Next)
                  else ret Next) t = (Ok Next, t)).
  { destruct (depth_ok md d); [|reflexivity].
    unfold try_except, block_branch, bind, getattr, ret, raise.
    destruct (block_root (G x)), (block_arguments_mapping (G x));
      try discriminate Hnb; reflexivity. }
  rewrite Hblk. unfold bind.
  destruct (function_branch G x dist d t) as [[[]|] ]; reflexivity.
Qed.

Lemma ofg_dfs_step (G : graph) (wtf : bool) (x dist d : nat)
    (t : dfs_state) (s s' : ofg_state) (u : unit)
    (Hnb : is_block G x = false)
    (Hrf : forall r, root_function (G x) = Val r ->
           r = x /\ is_output_true G x = false)
    (HR : ofg_dfs_rel G t s) (Hx : onode s = x)
    (Hb : ofg_body G wtf s = (Ok u, s')) :
  exists t', dfs_body G (fun _ => Ok true) None x dist d t = (Ok tt, t') /\
             ofg_dfs_rel G t' s'.
Proof.
  rewrite dfs_body_noblock by exact Hnb.
  destruct t as [st ac vi]. destruct HR as (Hst & Hvi & Hac). cbn in *.
  rewrite ofg_body_eq in Hb. unfold try_except in Hb.
  rewrite ofg_function_branch_eq, Hx in Hb.
  unfold function_branch, output_branch, visit_tail, try_except, bind,
    getattr, ret, raise, modify, lift.
  assert (Hov : output_var G x = (rf_attribute_error G x &&
                  is_output_true G x && has_owner G x)%bool)
    by (unfold output_var; now rewrite Hnb).
  unfold is_output_true in Hrf.
  unfold rf_attribute_error, is_output_true, has_owner in Hov.
  destruct (root_function (G x)) as [r| |] eqn:Hr.
  - destruct (Hrf r eq_refl) as [-> Hio]. clear Hrf.
    destruct (inputs (G x)) as [ins| |] eqn:Hi.
    + pose proof (ofg_serialize_core G wtf x ins
                    (oextend ins (set_onode x s))) as Hc.
      destruct (ofg_serialize G wtf x ins (oextend ins (set_onode x s)))
        as [[o|e] s2].
      all: unfold core in Hc; cbn in Hc; injection Hc as Hs2 Ha2 Hv2 Hn2.
      all: try (destruct e; cbn [is_attribute_error] in Hb;
                try discriminate Hb;
                rewrite ofg_output_branch_eq, Hn2 in Hb;
                destruct (is_output (G x)) as [[]| |]; cbn in Hb;
                try discriminate Hio; try discriminate Hb).
      all: injection Hb as _ <-; eexists; split; [reflexivity|];
        unfold ofg_dfs_rel, nodes_of; cbn;
        rewrite ?Hn2, ?Hs2, ?Ha2, ?Hv2, filter_app; cbn [filter]; rewrite Hov, <- Hac, <- Hst, Hvi;
        cbn; rewrite ?map_app, ?map_rev, ?map_map; cbn; rewrite ?map_id;
        auto.
    + cbv beta iota delta [is_attribute_error] in Hb.
      rewrite ofg_output_branch_eq in Hb. cbn in Hb.
      destruct (is_output (G x)) as [[]| |];
        try discriminate Hio; try discriminate Hb.
      all: injection Hb as _ <-; eexists; split; [reflexivity|];
        unfold ofg_dfs_rel, nodes_of; cbn;
        rewrite filter_app; cbn [filter]; rewrite Hov, <- Hac, <- Hst, Hvi; cbn;
        rewrite map_app; auto.
    + discriminate.
  - cbv beta iota delta [is_attribute_error] in Hb.
    rewrite ofg_output_branch_eq, Hx in Hb.
    destruct (is_output (G x)) as [[]| |]; try discriminate Hb;
      [destruct (owner (G x)) as [o| |]; try discriminate Hb| |].
    all: injection Hb as _ <-; eexists; split; [reflexivity|];
      unfold ofg_dfs_rel, nodes_of; cbn;
      rewrite ?Hx, filter_app; cbn [filter]; rewrite Hov, <- Hac, <- Hst, Hvi; cbn;
      rewrite ?map_app, ?app_nil_r; auto.
  - discriminate.
Qed.

Lemma ofg_dfs_loop (G : graph) (wtf : bool)
    (Hnb : forall x, is_block G x = false)
    (Hrf : forall x r, root_function (G x) = Val r ->
           r = x /\ is_output_true G x = false)
    (fuel : nat) (t : dfs_state) (s s' : ofg_state) (u : unit) :
  ofg_dfs_rel G t s -> ofg_loop G wtf fuel s = Some (Ok u, s') ->
  exists t', dfs_loop G (fun _ => Ok true) None fuel t = Some (Ok tt, t') /\
             ofg_dfs_rel G t' s'.
Proof.
  revert t s. induction fuel as [|fuel IH]; intros t s HR H; [discriminate|].
  cbn in H |- *. destruct HR as (Hst & Hvi & Hac).
  destruct (stack t) as [|[[n dist] d] rest] eqn:Ht; cbn in Hst;
    rewrite <- Hst in H.
  - injection H as _ <-. exists t. split; [reflexivity|]. repeat split; auto.
    rewrite Ht. exact Hst.
  - assert (HR1 : ofg_dfs_rel G (set_stack rest t)
                    (set_onode n (set_ostack (nodes_of rest) s)))
      by (unfold ofg_dfs_rel; cbn; auto).
    cbn in H |- *. rewrite <- Hvi in H. fold (nodes_of rest) in H.
    destruct (mem n (visited t)); [exact (IH _ _ HR1 H)|].
    destruct (ofg_body G wtf (set_onode n (set_ostack (nodes_of rest) s)))
      as [[u1|e] s2] eqn:Hb; [|discriminate H].
    destruct (ofg_dfs_step G wtf n dist d (set_stack rest t) _ s2 u1 (Hnb n)
                (Hrf n) HR1 eq_refl Hb) as [t2 [Hd HR2]].
    rewrite Hd. exact (IH _ _ HR2 H).
Qed.

Lemma write_files_core (svg pdf png dotp : option string) (s : ofg_state) :
  oaccum (write_files svg pdf png dotp s) = oaccum s /\
  model (write_files svg pdf png dotp s) = model s /\
  dot (write_files svg pdf png dotp s) =
    (dot s ++ requested_writes svg pdf png dotp)%list.
Proof.
  unfold write_files, requested_writes, given_file, truthy.
  destruct svg as [f1|], pdf as [f2|], png as [f3|], dotp as [f4|];
    try destruct (String.eqb f1 EmptyString);
    try destruct (String.eqb f2 EmptyString);
    try destruct (String.eqb f3 EmptyString);
    try destruct (String.eqb f4 EmptyString); cbn;
    rewrite <- ?app_assoc, ?app_nil_r; auto.
Qed.

(** C6 (amended).  On a graph without block nodes whose function nodes
    are their own [root_function] and do not answer [is_output = True],
    when [output_function_graph] returns a text, [depth_first_search] from
    the same root with [lambda x: True] and no depth limit returns the nodes
    accumulated by [output_function_graph], in the same order, except the
    output variables ([output_var]), which only [output_function_graph]
    accumulates. *)
Theorem output_function_graph_traversal (G : graph) (pydot_available : bool)
    (fuel root : nat) (dot_file_path png_file_path pdf_file_path
    svg_file_path : option string) (text : string) (st : ofg_state)
    (Hnb : forall x, is_block G x = false)
    (Hrf : forall x r, root_function (G x) = Val r ->
           r = x /\ is_output_true G x = false)
    (H : output_function_graph_run G pydot_available fuel root dot_file_path
           png_file_path pdf_file_path svg_file_path = Some (Ok text, st)) :
  depth_first_search G fuel root (fun _ => Ok true) None false
  = Some (Ok (filter (fun x => negb (output_var G x)) (oaccum st))).
Proof.
  unfold output_function_graph_run in H.
  match type of H with
  | (if ?c then _ else _) = _ => destruct c; [discriminate|]
  end.
  match type of H with
  | match ofg_loop G ?w fuel ?s0 with _ => _ end = _ =>
      destruct (ofg_loop G w fuel s0) as [[[u|e] s]|] eqn:Hl;
      try discriminate;
      assert (HR : ofg_dfs_rel G (dfs_init root) s0)
  end.
  { destruct (not_none dot_file_path || _ || _ || _); repeat split. }
  injection H as _ <-.
  destruct (ofg_dfs_loop G _ Hnb Hrf fuel _ _ _ _ HR Hl) as [t [Hd (_ & _ & Ha)]].
  unfold depth_first_search. rewrite Hd.
  rewrite (proj1 (write_files_core _ _ _ _ s)), <- Ha. reflexivity.
Qed.

(** ** The text returned by output_function_graph *)

Section Text.
Local Open Scope string_scope.

Lemma str_app_assoc (a b c : string) : (a ++ b) ++ c = a ++ (b ++ c).
Proof. induction a; cbn; congruence. Qed.

Lemma str_app_nil_r (a : string) : a ++ EmptyString = a.
Proof. induction a; cbn; congruence. Qed.

Lemma cat_app (l1 l2 : list string) : cat (l1 ++ l2)%list = cat l1 ++ cat l2.
Proof. induction l1; cbn; [reflexivity|]. now rewrite IHl1, str_app_assoc. Qed.

Lemma no_nl_app (a b : string) : no_nl (a ++ b) = no_nl a && no_nl b.
Proof. induction a; cbn; [reflexivity|]. now rewrite IHa, andb_assoc. Qed.

Lemma no_nl_join (l : list string) :
  forallb no_nl l = true -> no_nl (join ", " l) = true.
Proof.
  induction l as [|a [|b l] IH]; cbn; auto; [now rewrite andb_true_r|].
  intros H. apply andb_prop in H as [Ha H].
  rewrite no_nl_app, Ha. cbn. apply IH, H.
Qed.

Lemma split_nl_line (l rest : string) :
  no_nl l = true -> split_nl (l ++ nl ++ rest) = l :: split_nl rest.
Proof.
  induction l as [|c l IH]; intros H; [reflexivity|].
  cbn [no_nl] in H. apply andb_prop in H as [Hc H].
  change (String c l ++ nl ++ rest) with (String c (l ++ nl ++ rest)).
  cbn [split_nl]. apply negb_true_iff in Hc. rewrite Hc.
  rewrite IH by exact H. reflexivity.
Qed.

Lemma split_nl_cat (ls : list string) :
  forallb no_nl ls = true ->
  split_nl (cat (map (fun l => (l ++ nl)%string) ls)) = (ls ++ [EmptyString])%list.
Proof.
  induction ls as [|l ls IH]; intros H; [reflexivity|].
  cbn in H |- *. apply andb_prop in H as [Hl H].
  rewrite str_app_assoc, split_nl_line by exact Hl. now rewrite IH.
Qed.

Lemma join_cons (sep a : string) (xs : list string) :
  join sep (a :: xs) = a ++ cat (map (fun l => (sep ++ l)%string) xs).
Proof.
  revert a. induction xs as [|b xs IH]; intro a.
  - cbn. now rewrite str_app_nil_r.
  - change (join sep (a :: b :: xs)) with (a ++ sep ++ join sep (b :: xs)).
    rewrite IH. cbn [cat map]. now rewrite str_app_assoc.
Qed.

Lemma serialize_inputs_ok (G : graph) (wtf : bool) (cur : string)
    (ins : list nat) (s : ofg_state) :
  forallb (fun c => match uid (G c), shape (G c) with
                    | Val u, Val _ => no_nl u
                    | _, _ => false
                    end) ins = true ->
  exists s', serialize_inputs G wtf cur ins s = (Ok tt, s') /\
    model s' = model s ++ join ", " (map (fun c => attr_str (uid (G c))) ins).
Proof.
  revert s. induction ins as [|c rest IH]; intros s H.
  - exists s. split; [reflexivity|]. cbn. now rewrite str_app_nil_r.
  - cbn [forallb] in H. apply andb_prop in H as [Hc H].
    destruct (uid (G c)) as [u| |] eqn:Hu; [|discriminate|discriminate].
    destruct (shape (G c)) as [sh| |] eqn:Hsh; [|discriminate|discriminate].
    cbn [serialize_inputs]. unfold bind, getattr, modify, ret. rewrite Hu, Hsh.
    destruct rest as [|c' rest'], wtf; cbn -[serialize_inputs] in *;
    match goal with
    | |- context [serialize_inputs G ?w cur ?r ?s0] =>
        destruct (IH s0 H) as [s2 [Hs2 Hm2]]; rewrite Hs2
    end;
      eexists; (split; [reflexivity|]); rewrite Hm2; cbn;
      rewrite ?Hu; cbn; rewrite ?str_app_assoc, ?str_app_nil_r; reflexivity.
Qed.

Lemma ofg_serialize_ok (G : graph) (wtf : bool) (x : nat) (ins : list nat)
    (s : ofg_state)
    (Hr : root_function (G x) = Val x) (Hi : inputs (G x) = Val ins)
    (Hwf : wf_fn G x = true) :
  exists s', ofg_serialize G wtf x ins s = (Ok tt, s') /\
    model s' = model s ++ spec_line G x ++ nl /\ core s' = core s /\
    no_nl (spec_line G x) = true.
Proof.
  unfold wf_fn in Hwf. rewrite Hr, Hi in Hwf.
  destruct (op_name (G x)) as [op| |] eqn:Hop; try discriminate.
  destruct (uid (G x)) as [ux| |] eqn:Hux; try discriminate.
  destruct (outputs (G x)) as [[|o outs]| |] eqn:Hout; try discriminate.
  destruct (uid (G o)) as [uo| |] eqn:Huo;
    [|now rewrite andb_false_r in Hwf|now rewrite andb_false_r in Hwf].
  destruct (shape (G o)) as [sho| |] eqn:Hsho;
    [|now rewrite andb_false_r in Hwf|now rewrite andb_false_r in Hwf].
  apply andb_prop in Hwf as [Hwf Huon]. apply andb_prop in Hwf as [Hopn Hins].
  assert (Hnl : no_nl (spec_line G x) = true).
  { unfold spec_line. rewrite Hop, Hi, Hout. cbn [attr_str attr_list hd]. rewrite Huo. cbn [attr_str].
    rewrite !no_nl_app, Hopn, Huon. cbn. rewrite no_nl_join; [reflexivity|].
    rewrite forallb_forall in Hins |- *. intros u Hu.
    apply in_map_iff in Hu as [c [<- Hc']]. specialize (Hins c Hc').
    destruct (uid (G c)), (shape (G c)); try discriminate. exact Hins. }
  assert (Hmain : exists s', ofg_serialize G wtf x ins s = (Ok tt, s') /\
                    model s' = model s ++ spec_line G x ++ nl).
  { unfold spec_line. rewrite Hop, Hi, Hout. cbn [attr_str attr_list hd]. rewrite Huo. cbn [attr_str].
    unfold ofg_serialize, first_output, bind, getattr, modify, ret, raise.
    rewrite ?Hop, ?Hux, ?Hout, ?Huo, ?Hsho.
    destruct wtf; cbn -[serialize_inputs];
    match goal with
    | |- context [serialize_inputs G ?w ?cur ins ?s0] =>
        destruct (serialize_inputs_ok G w cur ins s0 Hins) as [s2 [Hs2 Hm2]];
        rewrite Hs2
    end; cbn; rewrite ?Huo, ?Hsho; cbn;
    (eexists; split; [reflexivity|]);
    cbn; rewrite Hm2; cbn;
    repeat progress (rewrite ?str_app_assoc; cbn); reflexivity. }
  destruct Hmain as [s' [Hs' Hm]].
  assert (Hc := ofg_serialize_core G wtf x ins s). rewrite Hs' in Hc.
  exists s'. auto.
Qed.

Lemma ofg_output_branch_keeps (G : graph) (s : ofg_state) :
  model (snd (ofg_output_branch G s)) = model s /\
  oaccum (snd (ofg_output_branch G s)) = oaccum s /\
  onode (snd (ofg_output_branch G s)) = onode s.
Proof.
  rewrite ofg_output_branch_eq.
  destruct (is_output (G (onode s))) as [[]| |]; cbn; auto.
  destruct (owner (G (onode s))); cbn; auto.
Qed.

Lemma model_inv_append (G : graph) (s2 : ofg_state) (x : nat) (line : string)
    (Hf : fn_entry G x = true) (Hl : spec_line G x = line)
    (Hm : model s2 = cat (map (fun r => (spec_line G r ++ nl)%string)
                          (filter (fn_entry G) (oaccum s2))) ++ line ++ nl) :
  model_inv G (ovisit x (oappend x s2)).
Proof.
  unfold model_inv. cbn. rewrite filter_app. cbn. rewrite Hf, map_app, cat_app.
  cbn. rewrite Hm, Hl, str_app_nil_r. reflexivity.
Qed.

Lemma model_inv_skip (G : graph) (s2 : ofg_state) (x : nat)
    (Hf : fn_entry G x = false) (Hm : model_inv G s2) :
  model_inv G (ovisit x (oappend x s2)).
Proof.
  unfold model_inv in *. cbn. rewrite filter_app. cbn. rewrite Hf, app_nil_r.
  exact Hm.
Qed.

(** the serialization of the root function [r] of a well-formed node [x] *)
Lemma ofg_serialize_root_ok (G : graph) (wtf : bool) (x r : nat)
    (ins : list nat) (s : ofg_state)
    (Hr : root_function (G x) = Val r) (Hi : inputs (G r) = Val ins)
    (Hwf : wf_fn G x = true) :
  exists s', ofg_serialize G wtf r ins s = (Ok tt, s') /\
    model s' = model s ++ spec_line G r ++ nl /\ core s' = core s.
Proof.
  unfold wf_fn in Hwf. rewrite Hr, Hi in Hwf.
  destruct (op_name (G r)) as [op| |] eqn:Hop; try discriminate.
  destruct (uid (G r)) as [ux| |] eqn:Hux; try discriminate.
  destruct (outputs (G r)) as [[|o outs]| |] eqn:Hout; try discriminate.
  destruct (uid (G o)) as [uo| |] eqn:Huo;
    [|now rewrite andb_false_r in Hwf|now rewrite andb_false_r in Hwf].
  destruct (shape (G o)) as [sho| |] eqn:Hsho;
    [|now rewrite andb_false_r in Hwf|now rewrite andb_false_r in Hwf].
  apply andb_prop in Hwf as [Hwf _]. apply andb_prop in Hwf as [_ Hins].
  assert (Hmain : exists s', ofg_serialize G wtf r ins s = (Ok tt, s') /\
                    model s' = model s ++ spec_line G r ++ nl).
  { unfold spec_line. rewrite Hop, Hi, Hout. cbn [attr_str attr_list hd].
    rewrite Huo. cbn [attr_str].
    unfold ofg_serialize, first_output, bind, getattr, modify, ret, raise.
    rewrite ?Hop, ?Hux, ?Hout, ?Huo, ?Hsho.
    destruct wtf; cbn -[serialize_inputs];
    match goal with
    | |- context [serialize_inputs G ?w ?cur ins ?s0] =>
        destruct (serialize_inputs_ok G w cur ins s0 Hins) as [s2 [Hs2 Hm2]];
        rewrite Hs2
    end; cbn; rewrite ?Huo, ?Hsho; cbn;
    (eexists; split; [reflexivity|]);
    cbn; rewrite Hm2; cbn;
    repeat progress (rewrite ?str_app_assoc; cbn); reflexivity. }
  destruct Hmain as [s' [Hs' Hm]].
  assert (Hc := ofg_serialize_core G wtf r ins s). rewrite Hs' in Hc.
  exists s'. auto.
Qed.

Lemma ofg_model_step (G : graph) (wtf : bool) (x : nat) (s s' : ofg_state)
    (u : unit)
    (Hroot : forall y r, root_function (G y) = Val r ->
                         root_function (G r) = Val r)
    (Hwf : wf_fn G x = true) (Hx : onode s = x) (HI : model_inv G s)
    (HR : forall y, In y (oaccum s) -> fn_entry G y = true ->
                    root_function (G y) = Val y)
    (Hb : ofg_body G wtf s = (Ok u, s')) :
  model_inv G s' /\
  (forall y, In y (oaccum s') -> fn_entry G y = true ->
             root_function (G y) = Val y).
Proof.
  rewrite ofg_body_eq in Hb. unfold try_except in Hb.
  rewrite ofg_function_branch_eq, Hx in Hb.
  destruct (root_function (G x)) as [r| |] eqn:Hr; [| |discriminate Hb].
  - pose proof (Hroot x r Hr) as Hrr.
    destruct (inputs (G r)) as [ins| |] eqn:Hi; [| |discriminate Hb].
    + destruct (ofg_serialize_root_ok G wtf x r ins
                  (oextend ins (set_onode r s)) Hr Hi Hwf)
        as (s2 & Hs2 & Hm & Hc).
      rewrite Hs2 in Hb. injection Hb as _ <-.
      unfold core in Hc. cbn in Hc. injection Hc as _ Ha Hv Hn.
      rewrite Hn. split.
      * apply model_inv_append with (line := spec_line G r);
          [unfold fn_entry; now rewrite Hrr, Hi|reflexivity|].
        rewrite Hm, Ha. cbn. rewrite HI. rewrite ?str_app_assoc. reflexivity.
      * cbn. rewrite Ha. intros y Hy. apply in_app_or in Hy as [Hy|[<-|[]]].
        -- exact (HR y Hy).
        -- intros _. exact Hrr.
    + cbv beta iota delta [is_attribute_error] in Hb.
      destruct (ofg_output_branch_keeps G (set_onode r s)) as (Hm & Ha & Hn).
      destruct (ofg_output_branch G (set_onode r s)) as [[]] eqn:Ho;
        [|discriminate Hb].
      injection Hb as _ <-. cbn in Hm, Ha, Hn. rewrite Hn.
      assert (Hf : fn_entry G r = false) by (unfold fn_entry; now rewrite Hrr, Hi).
      split.
      * apply model_inv_skip; [exact Hf|].
        unfold model_inv. rewrite Hm, Ha. exact HI.
      * cbn. rewrite Ha. intros y Hy. apply in_app_or in Hy as [Hy|[<-|[]]].
        -- exact (HR y Hy).
        -- rewrite Hf. discriminate.
  - cbv beta iota delta [is_attribute_error] in Hb.
    destruct (ofg_output_branch_keeps G s) as (Hm & Ha & Hn).
    destruct (ofg_output_branch G s) as [[]] eqn:Ho; [|discriminate Hb].
    injection Hb as _ <-. cbn in Hm, Ha, Hn. rewrite Hn, Hx.
    assert (Hf : fn_entry G x = false) by (unfold fn_entry; now rewrite Hr).
    split.
    + apply model_inv_skip; [exact Hf|].
      unfold model_inv. rewrite Hm, Ha. exact HI.
    + cbn. rewrite Ha. intros y Hy. apply in_app_or in Hy as [Hy|[<-|[]]].
      * exact (HR y Hy).
      * rewrite Hf. discriminate.
Qed.

Lemma ofg_model_loop (G : graph) (wtf : bool)
    (Hroot : forall y r, root_function (G y) = Val r ->
                         root_function (G r) = Val r)
    (Hwf : forall x, wf_fn G x = true)
    (fuel : nat) (s s' : ofg_state) (u : unit) :
  model_inv G s ->
  (forall y, In y (oaccum s) -> fn_entry G y = true ->
             root_function (G y) = Val y) ->
  ofg_loop G wtf fuel s = Some (Ok u, s') ->
  model_inv G s' /\
  (forall y, In y (oaccum s') -> fn_entry G y = true ->
             root_function (G y) = Val y).
Proof.
  revert s. induction fuel as [|fuel IH]; intros s HI HR H; [discriminate|].
  cbn in H. destruct (ostack s) as [|n rest]; [injection H as _ <-; auto|].
  destruct (mem n (ovisited s));
    [exact (IH (set_onode n (set_ostack rest s)) HI HR H)|].
  destruct (ofg_body G wtf (set_onode n (set_ostack rest s)))
    as [[u1|e] s2] eqn:Hb; [|discriminate H].
  destruct (ofg_model_step G wtf n (set_onode n (set_ostack rest s)) s2 u1
              Hroot (Hwf n) eq_refl HI HR Hb) as [HI2 HR2].
  exact (IH s2 HI2 HR2 H).
Qed.

(** C7 (amended).  When every root function is its own [root_function]
    (the root function of a composite model is a primitive function) and
    every function node carries the attributes the serialization reads,
    without newlines, the returned text is made of one line
    [op_name(uid_1, ..., uid_k) -> output_uid] ([spec_line]) per function
    accumulated (the [root_function] of each function node visited), in
    reverse order of accumulation, each line preceded by a newline: the
    text starts with an empty line unless no function node was met. *)
Theorem output_function_graph_text (G : graph) (pydot_available : bool)
    (fuel root : nat) (dot_file_path png_file_path pdf_file_path
    svg_file_path : option string) (text : string) (st : ofg_state)
    (Hroot : forall x r, root_function (G x) = Val r ->
                         root_function (G r) = Val r)
    (Hwf : forall x, wf_fn G x = true)
    (H : output_function_graph_run G pydot_available fuel root dot_file_path
           png_file_path pdf_file_path svg_file_path = Some (Ok text, st)) :
  text = cat (map (fun l => nl ++ l)
                  (rev (map (spec_line G) (filter (fn_entry G) (oaccum st))))).
Proof.
  unfold output_function_graph_run in H.
  match type of H with
  | (if ?c then _ else _) = _ => destruct c; [discriminate|]
  end.
  match type of H with
  | match ofg_loop G ?w fuel ?s0 with _ => _ end = _ =>
      destruct (ofg_loop G w fuel s0) as [[[u|e] s]|] eqn:Hl;
      try discriminate;
      assert (HI : model_inv G s0)
  end.
  { destruct (not_none dot_file_path || _ || _ || _); reflexivity. }
  injection H as <- <-.
  destruct (ofg_model_loop G _ Hroot Hwf fuel _ _ _ HI
              ltac:(destruct (not_none dot_file_path || _ || _ || _);
                    intros ? []) Hl) as [Hm HR].
  destruct (write_files_core svg_file_path pdf_file_path png_file_path
              dot_file_path s) as (Ha & Hmw & _).
  rewrite Hmw, Ha, Hm.
  assert (Hnl : forallb no_nl (map (spec_line G) (filter (fn_entry G) (oaccum s)))
                = true).
  { rewrite forallb_forall. intros l Hl'.
    apply in_map_iff in Hl' as [r [<- Hr]]. apply filter_In in Hr as [Hr Hf].
    pose proof (HR r Hr Hf) as Hrf.
    unfold fn_entry in Hf. rewrite Hrf in Hf.
    destruct (inputs (G r)) as [ins| |] eqn:Hi; try discriminate.
    destruct (ofg_serialize_ok G false r ins s Hrf Hi (Hwf r))
      as (_ & _ & _ & _ & Hn). exact Hn. }
  rewrite <- map_map with (f := spec_line G) (g := fun l => (l ++ nl)%string).
  rewrite split_nl_cat by exact Hnl.
  rewrite rev_app_distr. cbn [rev app]. rewrite join_cons. reflexivity.
Qed.

End Text.

(** ** The pydot_ng calls of output_function_graph *)

Lemma stable_get_node (P : ofg_state -> Prop) : stable P get_node.
Proof. intros s Hs. exact Hs. Qed.

Section DotOnly.
Variable G : graph.
Variable wtf : bool.
Variable Q : list dot_event -> Prop.
Hypothesis HQ : wtf = true -> forall l ev, is_write ev = false -> Q l ->
  Q (l ++ [ev]).

Lemma dot_only_model : forall s str,
  Q (dot s) -> Q (dot (add_model str s)).
Proof. intros s str H. exact H. Qed.

Lemma dot_only_dot : forall s ev, wtf = true -> is_write ev = false ->
  Q (dot s) -> Q (dot (add_dot ev s)).
Proof. intros s ev Hw He H. exact (HQ Hw (dot s) ev He H). Qed.

Lemma stable_ofg_body_dot : stable (fun s => Q (dot s)) (ofg_body G wtf).
Proof.
  unfold ofg_body, ofg_function_branch, ofg_output_branch.
  repeat match goal with
  | |- stable _ (bind _ _) => apply stable_bind; [|intros ?]
  | |- stable _ (ret _) => apply stable_ret
  | |- stable _ get_node => apply stable_get_node
  | |- stable _ (getattr _) => apply stable_getattr
  | |- stable _ (try_except _ _ _) => apply stable_try
  | |- stable _ (ofg_serialize _ _ _ _) =>
      apply (stable_ofg_serialize G wtf (fun s => Q (dot s)) dot_only_model
               dot_only_dot)
  | |- stable _ (if _ then _ else _) => apply stable_if; intros ?
  | |- stable _ (modify _) => apply stable_modify; intros ? ?; assumption
  end.
Qed.

Lemma ofg_loop_dot (fuel : nat) (s s' : ofg_state) (r : outcome unit) :
  Q (dot s) -> ofg_loop G wtf fuel s = Some (r, s') -> Q (dot s').
Proof.
  revert s. induction fuel as [|fuel IH]; intros s Hs H; [discriminate|].
  cbn in H. destruct (ostack s) as [|n rest]; [now injection H as _ <-|].
  destruct (mem n (ovisited s)); [exact (IH (set_onode n (set_ostack rest s)) Hs H)|].
  pose proof (stable_ofg_body_dot (set_onode n (set_ostack rest s)) Hs) as Hb.
  destruct (ofg_body G wtf (set_onode n (set_ostack rest s)))
    as [[u1|e] s2]; [exact (IH s2 Hb H)|].
  injection H as _ <-. exact Hb.
Qed.
End DotOnly.

Lemma not_none_false {A} (p : option A) : not_none p = false -> p = None.
Proof. destruct p; [discriminate|reflexivity]. Qed.

Lemma filter_requested (svg pdf png dotp : option string) :
  filter is_write (requested_writes svg pdf png dotp)
  = requested_writes svg pdf png dotp.
Proof.
  unfold requested_writes, given_file.
  destruct svg as [f1|], pdf as [f2|], png as [f3|], dotp as [f4|];
    try destruct (String.eqb f1 EmptyString);
    try destruct (String.eqb f2 EmptyString);
    try destruct (String.eqb f3 EmptyString);
    try destruct (String.eqb f4 EmptyString); reflexivity.
Qed.

(** C8 (amended).  With the four paths [None], the result does not depend
    on whether [pydot_ng] can be imported and no pydot call is made.
    Otherwise, without [pydot_ng] the call raises [ImportError]; with it,
    a call that returns writes exactly the files whose path is a non-empty
    string, in the order svg, pdf, png, dot. *)
Theorem output_function_graph_files (G : graph) (fuel node : nat)
    (dot_file_path png_file_path pdf_file_path svg_file_path : option string) :
  (not_none dot_file_path || not_none png_file_path ||
   not_none pdf_file_path || not_none svg_file_path = false ->
   output_function_graph_run G false fuel node dot_file_path png_file_path
     pdf_file_path svg_file_path
   = output_function_graph_run G true fuel node dot_file_path png_file_path
       pdf_file_path svg_file_path /\
   forall pydot_available r st,
     output_function_graph_run G pydot_available fuel node dot_file_path
       png_file_path pdf_file_path svg_file_path = Some (r, st) ->
     dot st = []) /\
  (not_none dot_file_path || not_none png_file_path ||
   not_none pdf_file_path || not_none svg_file_path = true ->
   output_function_graph G false fuel node dot_file_path png_file_path
     pdf_file_path svg_file_path = Some (Exn (ImportError import_msg)) /\
   forall text st,
     output_function_graph_run G true fuel node dot_file_path png_file_path
       pdf_file_path svg_file_path = Some (Ok text, st) ->
     filter is_write (dot st)
     = requested_writes svg_file_path pdf_file_path png_file_path
         dot_file_path).
Proof.
  split; intro Hw.
  - assert (Hn := Hw).
    apply orb_false_elim in Hn as [Hn Hsvg]. apply orb_false_elim in Hn as [Hn Hpdf].
    apply orb_false_elim in Hn as [Hdot Hpng].
    apply not_none_false in Hdot, Hpng, Hpdf, Hsvg. subst.
    split; [reflexivity|]. intros b r st H.
    unfold output_function_graph_run in H. cbn in H.
    destruct (ofg_loop G false fuel (mk_ofg [node] [] [] node EmptyString []))
      as [[[u|e] s]|] eqn:Hl; try discriminate; injection H as _ <-;
      refine (ofg_loop_dot G false (fun l => l = []) _ fuel
                (mk_ofg [node] [] [] node EmptyString []) s _ eq_refl Hl);
      discriminate.
  - unfold output_function_graph, output_function_graph_run. rewrite Hw.
    split; [reflexivity|]. intros text st H. cbn in H.
    destruct (ofg_loop G true fuel
                (add_dot DotInit (mk_ofg [node] [] [] node EmptyString [])))
      as [[[u|e] s]|] eqn:Hl; try discriminate. injection H as _ <-.
    assert (Hs : filter is_write (dot s) = []).
    { refine (ofg_loop_dot G true (fun l => filter is_write l = []) _ fuel
                (mk_ofg [node] [] [] node EmptyString [DotInit]) s _ eq_refl Hl).
      intros _ l ev He Hl'. rewrite filter_app, Hl'. cbn. now rewrite He. }
    destruct (write_files_core svg_file_path pdf_file_path png_file_path
                dot_file_path s) as (_ & _ & Hd).
    rewrite Hd, filter_app, Hs. apply filter_requested.
Qed.

Lemma ex_chain_no_block (x : nat) : is_block ex_chain x = false.
Proof. destruct x as [|[|[|[|[|x]]]]]; reflexivity. Qed.

Lemma ex_chain_primitive (x r : nat) :
  root_function (ex_chain x) = Val r -> r = x /\ is_output_true ex_chain x = false.
Proof.
  destruct x as [|[|[|[|[|x]]]]]; cbn; intro H; try discriminate H;
    injection H as <-; split; reflexivity.
Qed.

Lemma ex_chain_wf (x : nat) : wf_fn ex_chain x = true.
Proof. destruct x as [|[|[|[|[|x]]]]]; reflexivity. Qed.

Lemma ex_model_roots (x r : nat) :
  root_function (ex_model x) = Val r -> root_function (ex_model r) = Val r.
Proof.
  destruct x as [|[|[|[|[|[|[|[|[|[|x]]]]]]]]]]; cbn; intro H;
    try discriminate H; injection H as <-; reflexivity.
Qed.

Lemma ex_model_wf (x : nat) : wf_fn ex_model x = true.
Proof. destruct x as [|[|[|[|[|[|[|[|[|[|x]]]]]]]]]]; reflexivity. Qed.

(** C6 (as stated, refuted).  [ex_chain] has no block node, yet
    [output_function_graph] accumulates the output variable 1, which
    [depth_first_search] with [lambda x: True] skips. *)
Lemma ofg_collects_output_variable :
  (forall x, is_block ex_chain x = false) /\
  (exists text st,
     output_function_graph_run ex_chain true 20 0 None None None None
       = Some (Ok text, st) /\ oaccum st = [0; 1; 2; 3]) /\
  depth_first_search ex_chain 20 0 (fun _ => Ok true) None false
    = Some (Ok [0; 2; 3]).
Proof.
  split; [exact ex_chain_no_block|].
  split; [|reflexivity].
  destruct (output_function_graph_run ex_chain true 20 0 None None None None)
    as [[[text|e] st]|] eqn:H; [|vm_compute in H; discriminate H
                               |vm_compute in H; discriminate H].
  exists text, st. split; [reflexivity|].
  vm_compute in H. injection H as _ <-. reflexivity.
Qed.

Lemma output_function_graph_traversal_witness :
  exists text st,
    output_function_graph_run ex_chain true 20 0 None None None None
      = Some (Ok text, st) /\
    depth_first_search ex_chain 20 0 (fun _ => Ok true) None false
      = Some (Ok (filter (fun x => negb (output_var ex_chain x)) (oaccum st))).
Proof.
  destruct (output_function_graph_run ex_chain true 20 0 None None None None)
    as [[[text|e] st]|] eqn:H; [|vm_compute in H; discriminate H
                               |vm_compute in H; discriminate H].
  exists text, st. split; [reflexivity|].
  exact (output_function_graph_traversal ex_chain true 20 0 None None None
           None text st ex_chain_no_block ex_chain_primitive H).
Defined.

(** C7 (as stated, refuted).  On [ex_chain] the two lines are the ones the
    documentation describes, but the text returned starts with a newline:
    the model ends with one, so its split ends with an empty string that
    the reversal puts first. *)
Lemma ofg_text_leading_newline :
  map (spec_line ex_chain) [0; 2] =
    ["Plus(Out1) -> Out4"; "Times(Param3) -> Out1"] /\
  output_function_graph ex_chain true 20 0 None None None None =
    Some (Ok (nl ++ join nl ["Times(Param3) -> Out1"; "Plus(Out1) -> Out4"])%string) /\
  (nl ++ join nl ["Times(Param3) -> Out1"; "Plus(Out1) -> Out4"])%string <>
    join nl ["Times(Param3) -> Out1"; "Plus(Out1) -> Out4"].
Proof.
  split; [reflexivity|]. split; [reflexivity|].
  intro H. apply (f_equal String.length) in H. discriminate H.
Qed.

Lemma output_function_graph_text_witness :
  exists text st,
    output_function_graph_run ex_model true 20 9 None None None None
      = Some (Ok text, st) /\
    text = cat (map (fun l => (nl ++ l)%string)
                    (rev (map (spec_line ex_model)
                              (filter (fn_entry ex_model) (oaccum st))))).
Proof.
  destruct (output_function_graph_run ex_model true 20 9 None None None None)
    as [[[text|e] st]|] eqn:H; [|vm_compute in H; discriminate H
                               |vm_compute in H; discriminate H].
  exists text, st. split; [reflexivity|].
  exact (output_function_graph_text ex_model true 20 9 None None None None
           text st ex_model_roots ex_model_wf H).
Defined.

(** C8 (as stated, refuted).  The empty path [EmptyString] for the DOT file is not
    [None]: the call needs [pydot_ng] and raises [ImportError] without it,
    but with it the truthiness test of line 256 skips the write. *)
Lemma empty_path_needs_pydot_writes_nothing :
  output_function_graph ex_chain false 20 0 (Some EmptyString) None None None
    = Some (Exn (ImportError import_msg)) /\
  exists text st,
    output_function_graph_run ex_chain true 20 0 (Some EmptyString) None None
      None = Some (Ok text, st) /\
    filter is_write (dot st) = [].
Proof.
  split; [reflexivity|].
  destruct (output_function_graph_run ex_chain true 20 0 (Some EmptyString)
              None None None) as [[[text|e] st]|] eqn:H;
    [|vm_compute in H; discriminate H|vm_compute in H; discriminate H].
  exists text, st. split; [reflexivity|].
  vm_compute in H. injection H as _ <-. reflexivity.
Qed.

Lemma output_function_graph_files_witness :
  output_function_graph ex_chain false 20 0 (Some "g.dot") None None
    (Some "g.svg") = Some (Exn (ImportError import_msg)) /\
  exists text st,
    output_function_graph_run ex_chain true 20 0 (Some "g.dot") None None
      (Some "g.svg") = Some (Ok text, st) /\
    filter is_write (dot st) = [WriteSvg "g.svg"; WriteRaw "g.dot"].
Proof.
  destruct (output_function_graph_run ex_chain true 20 0 (Some "g.dot") None
              None (Some "g.svg")) as [[[text|e] st]|] eqn:H;
    [|vm_compute in H; discriminate H|vm_compute in H; discriminate H].
  destruct (proj2 (output_function_graph_files ex_chain 20 0 (Some "g.dot")
                     None None (Some "g.svg")) eq_refl) as [H1 H2].
  split; [exact H1|].
  exists text, st. split; [reflexivity|]. exact (H2 text st H).
Defined.

(** ** Further properties of the module *)

(** *** The name lookups *)

Lemma sort_by_key_snoc (l : list (nat * nat)) (b : nat * nat) :
  sort_by_key (l ++ [b]) = insert_by_distance b (sort_by_key l).
Proof. unfold sort_by_key. now rewrite fold_left_app. Qed.

(** the head of the stable sort: the first element of least distance *)
Lemma sort_by_key_head (l : list (nat * nat)) (a : nat * nat)
    (t : list (nat * nat)) :
  sort_by_key l = a :: t ->
  exists pre post, l = pre ++ a :: post /\
    Forall (fun b => snd a < snd b) pre /\
    Forall (fun b => snd a <= snd b) post.
Proof.
  revert a t. induction l as [|b l IH] using rev_ind; intros a t H.
  - discriminate H.
  - rewrite sort_by_key_snoc in H.
    destruct (sort_by_key l) as [|h t'] eqn:Hs.
    + destruct (sort_by_key_spec l) as [Hp _]. rewrite Hs in Hp.
      apply Permutation_nil in Hp as ->. cbn in H. inversion H; subst.
      exists [], []. auto.
    + destruct (IH h t' eq_refl) as (pre & post & -> & Hpre & Hpost).
      cbn [insert_by_distance] in H. destruct (Nat.ltb (snd b) (snd h)) eqn:Hlt.
      * injection H as <- _. apply Nat.ltb_lt in Hlt.
        exists (pre ++ h :: post), []. split; [reflexivity|]. split; [|auto].
        apply Forall_app. split; [|constructor; [lia|]].
        -- eapply Forall_impl; [|exact Hpre]. cbn. intros; lia.
        -- eapply Forall_impl; [|exact Hpost]. cbn. intros; lia.
      * injection H as <- _. apply Nat.ltb_ge in Hlt.
        exists pre, (post ++ [b]). rewrite <- app_assoc. split; [reflexivity|].
        split; [exact Hpre|]. apply Forall_app. auto.
Qed.

(** X1.  [find_all_with_name] with a string name returns distinct nodes,
    each named [node_name] and none of them an output variable. *)
Theorem find_all_with_name_sound (G : graph) (fuel node : nat) (s : string)
    (max_depth : option nat) (l : list nat)
    (H : find_all_with_name G fuel node (PyStr s) max_depth = Some (Ok l)) :
  NoDup l /\
  (forall x, In x l -> name (G x) = Val s /\ output_var G x = false).
Proof.
  unfold find_all_with_name in H. split.
  - destruct (dfs_result G _ max_depth fuel node false l H) as [st [Hl ->]].
    destruct (accum_unique_loop G (name_matches G (PyStr s)) max_depth fuel
                (dfs_init node) st tt) as [Hnd _];
      [split; [constructor|intros ? []]|exact Hl|exact Hnd].
  - intros x Hx.
    destruct (depth_first_search_members G _ max_depth false fuel node x l H Hx)
      as [Hv Ho].
    split; [exact (name_matches_true G s x Hv)|exact Ho].
Qed.

Lemma find_all_with_name_sound_witness :
  find_all_with_name ex_chain 20 0 (PyStr "h") None = Some (Ok [2]) /\
  (NoDup [2] /\
   (forall x, In x [2] -> name (ex_chain x) = Val "h" /\
                          output_var ex_chain x = false)).
Proof.
  split; [reflexivity|].
  apply (find_all_with_name_sound ex_chain 20 0 "h" None [2]).
  reflexivity.
Defined.

(** X3.  When [try_find_closest_by_name] returns, the traversal has
    completed; it returns [None] exactly when no node was accumulated, and
    otherwise a node named [node_name], not an output variable, whose
    distance is the least among the accumulated (node, distance) pairs and
    which comes first, in traversal order, among those of least distance. *)
Theorem try_find_closest_by_name_spec (G : graph) (fuel node : nat)
    (s : string) (max_depth : option nat) (r : option nat)
    (H : try_find_closest_by_name G fuel node (PyStr s) max_depth
           = Some (Ok r)) :
  exists st,
    dfs_loop G (name_matches G (PyStr s)) max_depth fuel (dfs_init node)
      = Some (Ok tt, st) /\
    match r with
    | None => accum st = []
    | Some x =>
        exists dx pre post, accum st = pre ++ (x, dx) :: post /\
          Forall (fun b => dx < snd b) pre /\
          Forall (fun b => dx <= snd b) post /\
          name (G x) = Val s /\ output_var G x = false
    end.
Proof.
  unfold try_find_closest_by_name, depth_first_search in H.
  destruct (dfs_loop G _ max_depth fuel (dfs_init node)) as [[[[]|e] st]|]
    eqn:Hl; try discriminate H.
  exists st. split; [reflexivity|].
  destruct (sort_by_key (accum st)) as [|[x dx] t] eqn:Hs; cbn in H.
  - injection H as <-. destruct (sort_by_key_spec (accum st)) as [Hp _].
    rewrite Hs in Hp. exact (Permutation_nil Hp).
  - injection H as <-.
    destruct (sort_by_key_head _ _ _ Hs) as (pre & post & Ha & Hpre & Hpost).
    exists dx, pre, post. do 3 (split; [assumption|]).
    destruct (accum_sound_loop G (name_matches G (PyStr s)) max_depth fuel
                (dfs_init node) st tt (fun a Ha => False_ind _ Ha) Hl (x, dx))
      as [Hv Ho]; [rewrite Ha; apply in_elt|].
    exact (conj (name_matches_true G s x Hv) Ho).
Qed.

Lemma try_find_closest_by_name_spec_witness :
  try_find_closest_by_name ex_chain 20 0 (PyStr "h") None
    = Some (Ok (Some 2)) /\
  exists st,
    dfs_loop ex_chain (name_matches ex_chain (PyStr "h")) None 20 (dfs_init 0)
      = Some (Ok tt, st) /\
    exists dx pre post, accum st = pre ++ (2, dx) :: post /\
      Forall (fun b => dx < snd b) pre /\
      Forall (fun b => dx <= snd b) post /\
      name (ex_chain 2) = Val "h" /\ output_var ex_chain 2 = false.
Proof.
  split; [reflexivity|].
  apply (try_find_closest_by_name_spec ex_chain 20 0 "h" None (Some 2)).
  reflexivity.
Defined.

(** X4.  [try_find_closest_by_name] raises [ValueError] exactly when
    [node_name] is not a string, with the message on the type of the name:
    unlike [find_by_name], several matches raise nothing. *)
Theorem try_find_closest_by_name_value_error (G : graph) (fuel node : nat)
    (nn : pyval) (max_depth : option nat) (msg : string) :
  try_find_closest_by_name G fuel node nn max_depth
    = Some (Exn (ValueError msg)) <->
  nn = PyOther /\ msg = not_a_string_msg.
Proof.
  unfold try_find_closest_by_name. destruct nn as [s|].
  - split; [|intros [H _]; discriminate H]. intro H. exfalso.
    apply (depth_first_search_no_value_error G (PyStr s) max_depth true fuel
             node msg).
    destruct (depth_first_search G fuel node _ max_depth true)
      as [[[|x l]|e]|]; congruence.
  - split; [intro H; injection H as <-; auto|intros [_ ->]; reflexivity].
Qed.

Lemma try_find_closest_by_name_value_error_witness :
  try_find_closest_by_name ex_chain 20 0 PyOther None
    = Some (Exn (ValueError not_a_string_msg)) /\
  (PyOther = PyOther /\ not_a_string_msg = not_a_string_msg).
Proof.
  split; [reflexivity|].
  apply (try_find_closest_by_name_value_error ex_chain 20 0 PyOther None
           not_a_string_msg).
  reflexivity.
Defined.

(** X5.  Whenever [find_by_name] returns a value (a node or [None]),
    [try_find_closest_by_name] with the same arguments returns the same
    value: sorting a result of at most one node changes nothing. *)
Theorem find_by_name_closest (G : graph) (fuel node : nat) (nn : pyval)
    (max_depth : option nat) (r : option nat)
    (H : find_by_name G fuel node nn max_depth = Some (Ok r)) :
  try_find_closest_by_name G fuel node nn max_depth = Some (Ok r).
Proof.
  unfold find_by_name, try_find_closest_by_name, depth_first_search in *.
  destruct nn as [s|]; [|discriminate H].
  destruct (dfs_loop G _ max_depth fuel (dfs_init node)) as [[[u|e] st]|];
    try discriminate H.
  destruct (accum st) as [|a [|b t]]; cbn in H |- *.
  - exact H.
  - exact H.
  - discriminate H.
Qed.

Lemma find_by_name_closest_witness :
  find_by_name ex_chain 20 0 (PyStr "h") None = Some (Ok (Some 2)) /\
  try_find_closest_by_name ex_chain 20 0 (PyStr "h") None
    = Some (Ok (Some 2)).
Proof.
  split; [reflexivity|].
  apply (find_by_name_closest ex_chain 20 0 (PyStr "h") None (Some 2)).
  reflexivity.
Defined.

(** *** depth_first_search *)

(** X6.  When the visitor accepts the root and the root is not handled as
    an output variable, the root is the first node of the result, with or
    without [sort_by_distance]. *)
Theorem depth_first_search_root_first (G : graph) (fuel root : nat)
    (visitor : nat -> outcome bool) (max_depth : option nat) (sort : bool)
    (l : list nat)
    (Hv : visitor root = Ok true)
    (Ho : output_var_at G max_depth 0 root = false)
    (H : depth_first_search G fuel root visitor max_depth sort = Some (Ok l)) :
  hd_error l = Some root.
Proof.
  destruct (dfs_result G visitor max_depth fuel root sort l H) as [st [Hl ->]].
  destruct fuel as [|fuel]; [discriminate Hl|].
  cbn in Hl.
  destruct (dfs_body G visitor max_depth root 0 0 (set_stack [] (dfs_init root)))
    as [[u|e] s1] eqn:Hb; [|discriminate Hl].
  destruct (dfs_body_ok G visitor max_depth root 0 0 _ _ u Hb)
    as (_ & _ & _ & _ & _ & Hacc & _).
  specialize (Hacc Hv Ho). cbn in Hacc.
  assert (Hst : exists t, accum st = (root, 0) :: t).
  { refine (proj1 (dfs_loop_invariant G visitor max_depth
              (fun s => exists t, accum s = (root, 0) :: t) _ _ fuel s1 tt st
              (ex_intro _ [] Hacc) Hl)).
    - intros s n dist d rest Hs _ _. exact Hs.
    - intros s n dist d rest u0 s' [t Ht] _ _ Hb'.
      destruct (dfs_body_ok G visitor max_depth n dist d _ _ u0 Hb')
        as (_ & _ & _ & _ & [Ha|[Ha _]] & _); cbn in Ha.
      + exists t. now rewrite Ha.
      + exists (t ++ [(n, dist)]). now rewrite Ha, Ht. }
  destruct Hst as [t Ht]. rewrite Ht.
  destruct sort; [|reflexivity].
  destruct (sort_by_key ((root, 0) :: t)) as [|[x dx] t'] eqn:Hs.
  - destruct (sort_by_key_spec ((root, 0) :: t)) as [Hp _]. rewrite Hs in Hp.
    apply Permutation_nil in Hp. discriminate Hp.
  - destruct (sort_by_key_head _ _ _ Hs) as (pre & post & Ha & Hpre & _).
    destruct pre as [|p pre].
    + injection Ha as <- _. reflexivity.
    + injection Ha as Hp _. subst p. inversion Hpre as [|? ? Hlt]. cbn in Hlt.
      lia.
Qed.

Lemma depth_first_search_root_first_witness :
  output_var_at ex_chain None 0 0 = false /\
  depth_first_search ex_chain 20 0 (fun _ => Ok true) None true
    = Some (Ok [0; 2; 3]) /\
  hd_error [0; 2; 3] = Some 0.
Proof.
  refine (conj eq_refl (conj eq_refl _)).
  apply (depth_first_search_root_first ex_chain 20 0 (fun _ => Ok true) None
           true [0; 2; 3]); reflexivity.
Defined.

Lemma dfs_body_depth_zero (G : graph) (visitor : nat -> outcome bool)
    (n dist d : nat) (s : dfs_state) :
  dfs_body G visitor (Some 0) n dist d s =
  dfs_body (without_blocks G) visitor None n dist d s.
Proof. reflexivity. Qed.

(** X7.  With [max_depth = 0] no block is expanded: the search is the one
    without depth limit over the same graph with every block attribute
    removed. *)
Theorem depth_first_search_depth_zero (G : graph) (fuel root : nat)
    (visitor : nat -> outcome bool) (sort : bool) :
  depth_first_search G fuel root visitor (Some 0) sort =
  depth_first_search (without_blocks G) fuel root visitor None sort.
Proof.
  unfold depth_first_search.
  replace (dfs_loop G visitor (Some 0) fuel (dfs_init root))
    with (dfs_loop (without_blocks G) visitor None fuel (dfs_init root));
    [reflexivity|].
  generalize (dfs_init root). induction fuel as [|fuel IH]; intro s;
    [reflexivity|].
  cbn [dfs_loop]. destruct (stack s) as [|[[n dist] d] rest]; [reflexivity|].
  destruct (mem n (visited (set_stack rest s))); [apply IH|].
  rewrite dfs_body_depth_zero.
  destruct (dfs_body (without_blocks G) visitor None n dist d _)
    as [[]]; [apply IH|reflexivity].
Qed.

Lemma depth_first_search_depth_zero_witness :
  depth_first_search ex_block 20 0 (fun _ => Ok true) (Some 0) false
    = Some (Ok [0; 1]) /\
  depth_first_search (without_blocks ex_block) 20 0 (fun _ => Ok true) None
    false = Some (Ok [0; 1]).
Proof.
  split; [reflexivity|].
  rewrite <- (depth_first_search_depth_zero ex_block 20 0 (fun _ => Ok true)
                false).
  reflexivity.
Defined.

Lemma block_branch_not_block (G : graph) (visitor : nat -> outcome bool)
    (n dist d : nat) (s : dfs_state) (Hnb : is_block G n = false) :
  exists e, block_branch G visitor n dist d s = (Exn e, s).
Proof.
  unfold is_block in Hnb. unfold block_branch, bind, getattr, ret, raise.
  destruct (block_root (G n)), (block_arguments_mapping (G n));
    try discriminate Hnb; eauto.
Qed.

Lemma dfs_body_no_blocks (G : graph) (visitor : nat -> outcome bool)
    (max_depth : option nat) (n dist d : nat) (s : dfs_state)
    (Hnb : is_block G n = false) :
  dfs_body G visitor max_depth n dist d s = dfs_body G visitor None n dist d s.
Proof.
  unfold dfs_body at 1. destruct (depth_ok max_depth d); [reflexivity|].
  unfold dfs_body. cbn [depth_ok].
  unfold bind, try_except. cbv beta.
  destruct (block_branch_not_block G visitor n dist d s Hnb) as [e ->].
  reflexivity.
Qed.

(** X8.  On a graph without block nodes, [max_depth] has no effect. *)
Theorem depth_first_search_no_blocks (G : graph) (fuel root : nat)
    (visitor : nat -> outcome bool) (max_depth : option nat) (sort : bool)
    (Hnb : forall x, is_block G x = false) :
  depth_first_search G fuel root visitor max_depth sort =
  depth_first_search G fuel root visitor None sort.
Proof.
  unfold depth_first_search.
  replace (dfs_loop G visitor max_depth fuel (dfs_init root))
    with (dfs_loop G visitor None fuel (dfs_init root)); [reflexivity|].
  generalize (dfs_init root). induction fuel as [|fuel IH]; intro s;
    [reflexivity|].
  cbn [dfs_loop]. destruct (stack s) as [|[[n dist] d] rest]; [reflexivity|].
  destruct (mem n (visited (set_stack rest s))); [apply IH|].
  rewrite (dfs_body_no_blocks G visitor max_depth n dist d _ (Hnb n)).
  destruct (dfs_body G visitor None n dist d _) as [[]]; [apply IH|reflexivity].
Qed.

Lemma depth_first_search_no_blocks_witness :
  (forall x, is_block ex_chain x = false) /\
  depth_first_search ex_chain 20 0 (fun _ => Ok true) (Some 0) false =
  depth_first_search ex_chain 20 0 (fun _ => Ok true) None false.
Proof.
  split; [exact ex_chain_no_block|].
  exact (depth_first_search_no_blocks ex_chain 20 0 (fun _ => Ok true)
           (Some 0) false ex_chain_no_block).
Defined.

(** *** output_function_graph *)

Section Modes.
Local Open Scope string_scope.

(** one iteration with the pydot_ng calls against one without them *)
Lemma ofg_body_modes (G : graph) (Hwf : forall x, wf_fn G x = true)
    (s s' : ofg_state) (Hc : core s = core s') (Hm : model s = model s') :
  fst (ofg_body G true s) = fst (ofg_body G false s') /\
  core (snd (ofg_body G true s)) = core (snd (ofg_body G false s')) /\
  model (snd (ofg_body G true s)) = model (snd (ofg_body G false s')).
Proof.
  destruct s as [st ac vi nd m d1], s' as [st' ac' vi' nd' m' d2].
  unfold core in Hc. cbn in Hc, Hm. injection Hc as <- <- <- <-. subst m'.
  rewrite !ofg_body_eq. unfold try_except. rewrite !ofg_function_branch_eq.
  cbn [onode].
  destruct (root_function (G nd)) as [r| |] eqn:Hr.
  - destruct (inputs (G r)) as [ins| |] eqn:Hi.
    + destruct (ofg_serialize_root_ok G true nd r ins
                  (oextend ins (set_onode r (mk_ofg st ac vi nd m d1)))
                  Hr Hi (Hwf nd)) as (t1 & H1 & Hm1 & Hc1).
      destruct (ofg_serialize_root_ok G false nd r ins
                  (oextend ins (set_onode r (mk_ofg st ac vi nd m d2)))
                  Hr Hi (Hwf nd)) as (t2 & H2 & Hm2 & Hc2).
      rewrite H1, H2.
      destruct t1 as [? ? ? ? ? ?], t2 as [? ? ? ? ? ?].
      unfold core in Hc1, Hc2. cbn in *.
      injection Hc1 as -> -> -> ->. injection Hc2 as -> -> -> ->.
      subst. auto.
    + cbv beta iota delta [is_attribute_error].
      rewrite !ofg_output_branch_eq. cbn [onode set_onode].
      destruct (is_output (G r)) as [[]| |]; cbn; auto.
      destruct (owner (G r)); cbn; auto.
    + cbn. auto.
  - cbv beta iota delta [is_attribute_error].
    rewrite !ofg_output_branch_eq. cbn [onode].
    destruct (is_output (G nd)) as [[]| |]; cbn; auto.
    destruct (owner (G nd)); cbn; auto.
  - cbn. auto.
Qed.

Lemma ofg_loop_modes (G : graph) (Hwf : forall x, wf_fn G x = true)
    (fuel : nat) (s s' : ofg_state) (Hc : core s = core s')
    (Hm : model s = model s') :
  match ofg_loop G true fuel s, ofg_loop G false fuel s' with
  | None, None => True
  | Some (o1, t1), Some (o2, t2) =>
      o1 = o2 /\ core t1 = core t2 /\ model t1 = model t2
  | _, _ => False
  end.
Proof.
  revert s s' Hc Hm. induction fuel as [|fuel IH]; intros s s' Hc Hm;
    [exact I|].
  cbn [ofg_loop].
  assert (Hst : ostack s = ostack s') by (unfold core in Hc; congruence).
  assert (Hvi : ovisited s = ovisited s') by (unfold core in Hc; congruence).
  rewrite <- Hst. destruct (ostack s) as [|n rest]; [auto|].
  cbn [ovisited set_onode set_ostack]. rewrite <- Hvi.
  assert (Hc1 : core (set_onode n (set_ostack rest s))
                = core (set_onode n (set_ostack rest s'))).
  { unfold core in *. cbn. congruence. }
  destruct (mem n (ovisited s)); [exact (IH _ _ Hc1 Hm)|].
  destruct (ofg_body_modes G Hwf _ _ Hc1 Hm) as (Ho & Hc2 & Hm2).
  destruct (ofg_body G true (set_onode n (set_ostack rest s))) as [o1 t1],
    (ofg_body G false (set_onode n (set_ostack rest s'))) as [o2 t2].
  cbn in Ho, Hc2, Hm2. subst o2.
  destruct o1; [exact (IH _ _ Hc2 Hm2)|auto].
Qed.

End Modes.

(** the traversal and the text do not depend on the pydot_ng calls; the
    file writes are the recorded events of [write_files] *)
Lemma output_function_graph_paths_same (G : graph)
    (pydot_available : bool) (fuel node : nat)
    (dot_file_path png_file_path pdf_file_path svg_file_path : option string)
    (Hwf : forall x, wf_fn G x = true) :
  output_function_graph G true fuel node dot_file_path png_file_path
    pdf_file_path svg_file_path =
  output_function_graph G pydot_available fuel node None None None None.
Proof.
  unfold output_function_graph, output_function_graph_run.
  cbn [not_none orb andb].
  destruct (not_none dot_file_path || not_none png_file_path ||
            not_none pdf_file_path || not_none svg_file_path); cbn [andb negb].
  - pose proof (ofg_loop_modes G Hwf fuel
                  (add_dot DotInit (mk_ofg [node] [] [] node EmptyString []))
                  (mk_ofg [node] [] [] node EmptyString []) eq_refl eq_refl)
      as Hl.
    destruct (ofg_loop G true fuel _) as [[o1 t1]|],
      (ofg_loop G false fuel _) as [[o2 t2]|]; try contradiction;
      [|reflexivity].
    destruct Hl as (<- & _ & Hm). destruct o1; [|reflexivity].
    destruct (write_files_core svg_file_path pdf_file_path png_file_path
                dot_file_path t1) as (_ & -> & _).
    destruct (write_files_core None None None None t2) as (_ & -> & _).
    now rewrite Hm.
  - destruct (ofg_loop G false fuel _) as [[[] t]|]; [|reflexivity|reflexivity].
    destruct (write_files_core svg_file_path pdf_file_path png_file_path
                dot_file_path t) as (_ & -> & _).
    destruct (write_files_core None None None None t) as (_ & -> & _).
    reflexivity.
Qed.

(** X9.  With pydot_ng importable and every function node well formed
    ([wf_fn]), whenever a call of [output_function_graph] with file paths
    returns a text, the call without any path returns the same text: the
    pydot_ng calls made for the files never change the returned text. *)
Theorem output_function_graph_files_no_effect (G : graph)
    (pydot_available : bool) (fuel node : nat)
    (dot_file_path png_file_path pdf_file_path svg_file_path : option string)
    (text : string)
    (Hwf : forall x, wf_fn G x = true)
    (H : output_function_graph G true fuel node dot_file_path png_file_path
           pdf_file_path svg_file_path = Some (Ok text)) :
  output_function_graph G pydot_available fuel node None None None None
    = Some (Ok text).
Proof.
  rewrite <- H. symmetry.
  exact (output_function_graph_paths_same G pydot_available fuel node
           dot_file_path png_file_path pdf_file_path svg_file_path Hwf).
Qed.

Lemma output_function_graph_files_no_effect_witness :
  exists text,
    (forall x, wf_fn ex_chain x = true) /\
    output_function_graph ex_chain true 20 0 (Some "g.dot") None None
      (Some "g.svg") = Some (Ok text) /\
    output_function_graph ex_chain false 20 0 None None None None
      = Some (Ok text).
Proof.
  destruct (output_function_graph ex_chain true 20 0 (Some "g.dot") None None
              (Some "g.svg")) as [[text|e]|] eqn:H;
    [|vm_compute in H; discriminate H|vm_compute in H; discriminate H].
  exists text. split; [exact ex_chain_wf|]. split; [reflexivity|].
  exact (output_function_graph_files_no_effect ex_chain false 20 0
           (Some "g.dot") None None (Some "g.svg") text ex_chain_wf H).
Defined.

(** one iteration on a function node [a] whose root function [ra] has the
    single input [b] *)
Lemma ofg_loop_rebound_step (G : graph) (wtf : bool) (a b ra : nat)
    (fuel : nat) (s : ofg_state)
    (Ha : root_function (G a) = Val ra) (Hi : inputs (G ra) = Val [b])
    (Hw : wf_fn G a = true) (Hs : ostack s = [a])
    (Hv : ~ In a (ovisited s)) :
  exists s', ofg_loop G wtf (S fuel) s = ofg_loop G wtf fuel s' /\
    ostack s' = [b] /\ ovisited s' = ra :: ovisited s.
Proof.
  cbn [ofg_loop]. rewrite Hs.
  change (ovisited (set_onode a (set_ostack [] s))) with (ovisited s).
  destruct (mem a (ovisited s)) eqn:Hm; [apply mem_In in Hm; contradiction|].
  rewrite ofg_body_eq. unfold try_except. rewrite ofg_function_branch_eq.
  change (onode (set_onode a (set_ostack [] s))) with a. rewrite Ha, Hi.
  destruct (ofg_serialize_root_ok G wtf a ra [b]
              (oextend [b] (set_onode ra (set_onode a (set_ostack [] s))))
              Ha Hi Hw) as (t & Ht & _ & Hc).
  rewrite Ht. eexists. split; [reflexivity|].
  destruct t as [? ? ? ? ? ?]. unfold core in Hc. cbn in Hc |- *.
  injection Hc as -> -> -> ->. auto.
Qed.

(** X10.  [visited.add(node)] adds the rebound [node.root_function], not
    the node popped from the stack: when two function nodes [x] and [y]
    have root functions [rx] and [ry], other objects than [x] and [y],
    whose only inputs are [y] and [x], [output_function_graph] started at
    [x] never returns, whatever the fuel. *)
Theorem output_function_graph_rebound_cycle (G : graph) (x y rx ry : nat)
    (dot_file_path png_file_path pdf_file_path svg_file_path : option string)
    (Hx : root_function (G x) = Val rx) (Hix : inputs (G rx) = Val [y])
    (Hy : root_function (G y) = Val ry) (Hiy : inputs (G ry) = Val [x])
    (Hwx : wf_fn G x = true) (Hwy : wf_fn G y = true)
    (Hxr : ~ In x [rx; ry]) (Hyr : ~ In y [rx; ry]) :
  forall fuel, output_function_graph G true fuel x dot_file_path
                 png_file_path pdf_file_path svg_file_path = None.
Proof.
  assert (Hloop : forall wtf fuel s, (ostack s = [x] \/ ostack s = [y]) ->
            ~ In x (ovisited s) -> ~ In y (ovisited s) ->
            ofg_loop G wtf fuel s = None).
  { intros wtf fuel. induction fuel as [|fuel IH]; intros s Hs Hvx Hvy;
      [reflexivity|].
    destruct Hs as [Hs|Hs].
    - destruct (ofg_loop_rebound_step G wtf x y rx fuel s Hx Hix Hwx Hs Hvx)
        as (s' & -> & Hs' & Hv').
      apply IH; [now right|rewrite Hv'; intros [H|H]..].
      + apply Hxr. now left.
      + exact (Hvx H).
      + apply Hyr. now left.
      + exact (Hvy H).
    - destruct (ofg_loop_rebound_step G wtf y x ry fuel s Hy Hiy Hwy Hs Hvy)
        as (s' & -> & Hs' & Hv').
      apply IH; [now left|rewrite Hv'; intros [H|H]..].
      + apply Hxr. right. now left.
      + exact (Hvx H).
      + apply Hyr. right. now left.
      + exact (Hvy H). }
  intro fuel. unfold output_function_graph, output_function_graph_run.
  rewrite andb_false_r.
  rewrite Hloop; [reflexivity| | |];
    destruct (_ || _ || _ || _); cbn; auto.
Qed.

Lemma output_function_graph_rebound_cycle_witness :
  root_function (ex_composite_cycle 0) = Val 2 /\
  inputs (ex_composite_cycle 2) = Val [1] /\
  output_function_graph ex_composite_cycle true 1000 0 None None None None
    = None.
Proof.
  refine (conj eq_refl (conj eq_refl _)).
  apply (output_function_graph_rebound_cycle ex_composite_cycle 0 1 2 3);
    try reflexivity; cbn; intuition discriminate.
Defined.
